(** * Model catalog adapter: [src/lib/openai-models.ts]

    A shallow embedding of the OpenAI model-list adapter (filtering,
    enrichment, ordering, and the five-minute in-memory cache) together
    with the properties its specification states about it.

    Conventions of the embedding:
    - JavaScript strings are [string], holding the UTF-8 encoding of the
      text.  Every pattern the code searches for is ASCII, and for such
      patterns [startsWith], [includes], [===] and the replacement of a
      hyphen are the same on the UTF-8 bytes as on the code units.
    - Upper-casing is computed on ASCII text; beyond ASCII it is the case
      mapping of the engine, which the embedding takes as it comes.
    - JavaScript numbers that the adapter uses (priorities, HTTP status
      codes, epoch milliseconds) are integers; they are [Z] or [nat].
    - The two module-level variables [cachedModels] and [cacheTimestamp]
      are fields of an explicit heap that every operation threads.
    - [fetch] is the only contact with the outside; what the upstream does
      is an oracle, and every outbound request is recorded in the heap.
    - An exported operation runs to its end before the next one starts.
      Console output is not part of the model.

    After the adapter come the two route handlers that call it, and the
    browser client singleton [createSupabaseBrowserClient]. *)

From Stdlib Require Import String Ascii List ZArith Lia Bool Sorted Permutation.
From Stdlib Require Import DecimalString.
Import ListNotations.
Local Open Scope string_scope.
Local Open Scope Z_scope.

(** ** JavaScript string primitives used by the adapter *)

(** The engine's [String.prototype.toUpperCase] on text that is not all
    ASCII: the Unicode case mapping, which turns for instance a sharp s
    into two letters. *)
Class Unicode := { toUpperCase_beyond_ascii : string -> string }.

Module Js.

(** [s.startsWith(p)] *)
Definition startsWith (s p : string) : bool := String.prefix p s.

(** [s.includes(sub)]: [sub] occurs at some offset of [s]. *)
Fixpoint includes (s sub : string) : bool :=
  String.prefix sub s ||
  match s with
  | EmptyString => false
  | String _ s' => includes s' sub
  end.

(** One code unit of [toUpperCase] on the ASCII range. *)
Definition upper_ascii (c : ascii) : ascii :=
  let n := nat_of_ascii c in
  if (Nat.leb 97 n && Nat.leb n 122)%bool then ascii_of_nat (n - 32) else c.

Fixpoint map_string (f : ascii -> ascii) (s : string) : string :=
  match s with
  | EmptyString => EmptyString
  | String c s' => String (f c) (map_string f s')
  end.

(** Every code unit of [s] is below 128. *)
Definition is_ascii (s : string) : bool :=
  forallb (fun c => Nat.ltb (nat_of_ascii c) 128) (list_ascii_of_string s).

(** [s.toUpperCase()]: letter by letter on ASCII text, the engine's case
    mapping on any other. *)
Definition toUpperCase `{Unicode} (s : string) : string :=
  if is_ascii s then map_string upper_ascii s else toUpperCase_beyond_ascii s.

(** [s.replace(/-/g, ' ')] *)
Definition replace_hyphens (s : string) : string :=
  map_string (fun c => if Ascii.eqb c "-" then " "%char else c) s.

(** Template-literal rendering of a non-negative integer. *)
Definition number_to_string (n : nat) : string :=
  NilZero.string_of_uint (Nat.to_uint n).

(** [arr.some(p)] *)
Definition some {A} (p : A -> bool) (arr : list A) : bool := existsb p arr.

(** A string is falsy exactly when it is empty; [undefined] is falsy. *)
Definition truthy (v : option string) : bool :=
  match v with
  | Some s => negb (String.eqb s EmptyString)
  | None => false
  end.

(** [`${v}`]: how a template literal renders a possibly-undefined string. *)
Definition template (v : option string) : string :=
  match v with
  | Some s => s
  | None => "undefined"
  end.

(** [a || b] on possibly-undefined strings. *)
Definition or_else (a b : option string) : option string :=
  if truthy a then a else b.

(** ** [Array.prototype.sort(compareFn)]

    ECMAScript (2019 onwards) requires the sort to be stable, and for a
    consistent comparator the sorted, stable arrangement of an array is
    unique, so every conforming engine returns the list computed here:
    [a] is placed before the first already-placed [b] with
    [compareFn(a, b) <= 0]. *)
Section Sort.
Context {A : Type} (compareFn : A -> A -> Z).

Fixpoint insert (a : A) (l : list A) : list A :=
  match l with
  | [] => [a]
  | b :: l' => if compareFn a b <=? 0 then a :: b :: l' else b :: insert a l'
  end.

Fixpoint sort (l : list A) : list A :=
  match l with
  | [] => []
  | a :: l' => insert a (sort l')
  end.
End Sort.

End Js.

(** ** Data model *)

(** [interface OpenAIModel] *)
Record OpenAIModel := mkOpenAIModel {
  id : string;
  object : string;
  created : Z;
  owned_by : string
}.

(** [interface OpenAIModelsResponse] *)
Record OpenAIModelsResponse := mkOpenAIModelsResponse {
  resp_object : string;
  data : list OpenAIModel
}.

(** The fields of [LLMModel] that the adapter fills in. *)
Record LLMModel := mkLLMModel {
  llm_id : string;
  name : string;
  provider : string;
  providerId : string;
  multiModal : bool;
  isBeta : bool
}.

(** ** Enrichment tables and derivations *)

Definition nameMap : list (string * string) :=
  [ ("gpt-5", "GPT-5");
    ("gpt-5-mini", "GPT-5 Mini");
    ("gpt-4.5-preview", "GPT-4.5 Preview");
    ("gpt-4o", "GPT-4o");
    ("gpt-4o-mini", "GPT-4o Mini");
    ("gpt-4-turbo", "GPT-4 Turbo");
    ("gpt-4-turbo-preview", "GPT-4 Turbo Preview");
    ("gpt-4", "GPT-4");
    ("gpt-3.5-turbo", "GPT-3.5 Turbo");
    ("o1", "o1");
    ("o1-mini", "o1-mini");
    ("o1-preview", "o1 Preview") ].

(** Own-property lookup [table[key]] in an object literal with distinct keys. *)
Fixpoint lookup {V} (table : list (string * V)) (key : string) : option V :=
  match table with
  | [] => None
  | (k, v) :: rest => if String.eqb key k then Some v else lookup rest key
  end.

(** [nameMap[modelId] || modelId.toUpperCase().replace(/-/g, ' ')].
    Every label of the table is a non-empty string, hence truthy.  The
    properties [nameMap] inherits from [Object.prototype] ([constructor],
    [toString], ...) are named by no identifier that passes the filter. *)
Definition formatModelName `{Unicode} (modelId : string) : string :=
  match lookup nameMap modelId with
  | Some label => label
  | None => Js.replace_hyphens (Js.toUpperCase modelId)
  end.

Definition multiModalModels : list string :=
  [ "gpt-5"; "gpt-5-mini"; "gpt-4.5-preview"; "gpt-4o"; "gpt-4o-mini";
    "gpt-4-turbo"; "gpt-4-vision-preview"; "o1" ].

Definition isMultiModalModel (modelId : string) : bool :=
  Js.some (fun model => Js.includes modelId model) multiModalModels.

Definition betaModels : list string :=
  [ "gpt-5"; "gpt-5-mini"; "gpt-4.5-preview"; "o1-preview" ].

Definition isBetaModel (modelId : string) : bool :=
  Js.some (fun model => Js.includes modelId model) betaModels.

(** The rank table, in the insertion order [Object.entries] enumerates. *)
Definition priorities : list (string * Z) :=
  [ ("gpt-5", 1);
    ("gpt-5-mini", 2);
    ("gpt-4.5-preview", 3);
    ("o1", 4);
    ("gpt-4o", 5);
    ("o1-mini", 6);
    ("gpt-4o-mini", 7);
    ("gpt-4-turbo", 8);
    ("gpt-4", 9);
    ("gpt-3.5-turbo", 10) ].

(** The [for ... of Object.entries(...)] loop: the first entry whose key
    occurs in [modelId] decides; 999 when the loop runs to its end. *)
Fixpoint first_match (entries : list (string * Z)) (modelId : string) : Z :=
  match entries with
  | [] => 999
  | (model, priority) :: rest =>
      if Js.includes modelId model then priority else first_match rest modelId
  end.

Definition getModelPriority (modelId : string) : Z :=
  first_match priorities modelId.

(** ** The filter / map / sort pipeline of [fetchOpenAIModels] *)

(** The callback of [.filter]. *)
Definition isValidModel (model : OpenAIModel) : bool :=
  (Js.startsWith (id model) "gpt-" ||
   Js.startsWith (id model) "o1" ||
   Js.startsWith (id model) "o3" ||
   String.eqb (id model) "gpt-4o" ||
   String.eqb (id model) "gpt-4o-mini" ||
   String.eqb (id model) "chatgpt-4o-latest")
  && negb (Js.includes (id model) "instruct")
  && negb (Js.includes (id model) "base").

(** The callback of [.map]. *)
Definition toLLMModel `{Unicode} (model : OpenAIModel) : LLMModel :=
  {| llm_id := id model;
     name := formatModelName (id model);
     provider := "OpenAI";
     providerId := "openai";
     multiModal := isMultiModalModel (id model);
     isBeta := isBetaModel (id model) |}.

(** The callback of [.sort]. *)
Definition comparePriority (a b : LLMModel) : Z :=
  getModelPriority (llm_id a) - getModelPriority (llm_id b).

Definition retained (records : list OpenAIModel) : list OpenAIModel :=
  List.filter isValidModel records.

Definition processModels `{Unicode} (records : list OpenAIModel) : list LLMModel :=
  Js.sort comparePriority (List.map toLLMModel (retained records)).


(** ** Effects: the module state, the upstream, and exceptions *)

(** A thrown JavaScript [Error]. *)
Record Error := new_Error { message : string }.

(** What reading the body of a response yields: the read rejects (the
    connection is lost half way), or the whole text arrives, and then
    [json()] either gives a value of the declared type
    [OpenAIModelsResponse] or leads to a throw: the text is not JSON, or it
    is JSON of another shape, on which the first use of [data.data] or of
    an [id] throws a [TypeError] inside the [try] block. *)
Inductive Body :=
| Truncated (e : Error)
| Received (bodyText : string) (parsed : Error + OpenAIModelsResponse).

(** The [Response] object [fetch] resolves to. *)
Record Response := mkResponse {
  status : nat;
  statusText : string;
  body : Body
}.

(** [response.ok], as the Fetch standard defines it. *)
Definition ok (response : Response) : bool :=
  (Nat.leb 200 (status response) && Nat.leb (status response) 299)%bool.

(** What one outbound request comes to. *)
Inductive Outcome :=
| Rejects (e : Error)
| Resolves (response : Response).

(** [process.env], as far as the adapter reads it. *)
Record Env := mkEnv {
  NEXT_PUBLIC_OPENAI_API_KEY : option string;
  OPENAI_API_KEY : option string
}.

(** The two module-level variables, and the record of the [Authorization]
    header of every request sent to [https://api.openai.com/v1/models]. *)
Record Heap := mkHeap {
  cachedModels : option (list LLMModel);
  cacheTimestamp : Z;
  requests : list string
}.

(** At module load: [cachedModels = null], [cacheTimestamp = 0]. *)
Definition initial_heap : Heap :=
  {| cachedModels := None; cacheTimestamp := 0; requests := [] |}.

(** Computations over the heap that return or throw.  A throw keeps the
    heap: what was written or sent before it stays written and sent. *)
Definition M (A : Type) : Type := Heap -> (Error + A) * Heap.

Definition ret {A} (a : A) : M A := fun h => (inr a, h).

Definition throw {A} (e : Error) : M A := fun h => (inl e, h).

Definition bind {A B} (c : M A) (k : A -> M B) : M B :=
  fun h =>
    match c h with
    | (inr a, h') => k a h'
    | (inl e, h') => (inl e, h')
    end.

(** [try { c } catch (error) { handler }] *)
Definition try_catch {A} (c : M A) (handler : Error -> M A) : M A :=
  fun h =>
    match c h with
    | (inr a, h') => (inr a, h')
    | (inl e, h') => handler e h'
    end.

Declare Scope js_scope.
Delimit Scope js_scope with js.
Notation "x <- c ;; k" := (bind c (fun x => k))
  (at level 100, c at next level, right associativity) : js_scope.
Notation "c ;;; k" := (bind c (fun _ => k))
  (at level 100, right associativity) : js_scope.

Definition CACHE_DURATION : Z := 5 * 60 * 1000.

(** The heap after one more request has gone out. *)
Definition sent (authorization : string) (h : Heap) : Heap :=
  {| cachedModels := cachedModels h;
     cacheTimestamp := cacheTimestamp h;
     requests := requests h ++ [authorization] |}.

Section Adapter.
Context `{U : Unicode}.

(** The environment of the process and the behaviour of the upstream:
    the outcome of the [n]-th request (counting from 0) that carries the
    given [Authorization] header. *)
Variable env : Env.
Variable upstream : nat -> string -> Outcome.

(** [await fetch('https://api.openai.com/v1/models', { headers })] *)
Definition fetch (authorization : string) : M Response :=
  fun h =>
    match upstream (length (requests h)) authorization with
    | Rejects e => (inl e, sent authorization h)
    | Resolves response => (inr response, sent authorization h)
    end.

(** [await response.text()] *)
Definition text (response : Response) : M string :=
  match body response with
  | Truncated e => throw e
  | Received bodyText _ => ret bodyText
  end.

(** [await response.json()] *)
Definition json (response : Response) : M OpenAIModelsResponse :=
  match body response with
  | Truncated e => throw e
  | Received _ (inl e) => throw e
  | Received _ (inr value) => ret value
  end.

(** [apiKey || process.env.NEXT_PUBLIC_OPENAI_API_KEY || process.env.OPENAI_API_KEY] *)
Definition resolve_key (apiKey : option string) : option string :=
  Js.or_else (Js.or_else apiKey (NEXT_PUBLIC_OPENAI_API_KEY env))
             (OPENAI_API_KEY env).

(** The body of the [try] block of [fetchOpenAIModels]. *)
Definition fetchOpenAIModels_try (apiKey : option string) : M (list LLMModel) :=
  (let key := resolve_key apiKey in
   if negb (Js.truthy key) then ret []
   else
     response <- fetch ("Bearer " ++ Js.template key) ;;
     if negb (ok response) then
       errorText <- text response ;;
       throw (new_Error ("OpenAI API error: "
                         ++ Js.number_to_string (status response)
                         ++ " " ++ statusText response))
     else
       value <- json response ;;
       ret (processModels (data value)))%js.

Definition fetchOpenAIModels (apiKey : option string) : M (list LLMModel) :=
  try_catch (fetchOpenAIModels_try apiKey) (fun error => ret []).

(** [cachedModels = models; cacheTimestamp = now] *)
Definition update_cache (models : list LLMModel) (now : Z) : M unit :=
  fun h =>
    (inr tt, {| cachedModels := Some models;
                cacheTimestamp := now;
                requests := requests h |}).

(** [getCachedOpenAIModels], with [now] the value [Date.now()] returns
    when the call starts.  An array is truthy also when it is empty, so
    [cachedModels && ...] tests only that the variable is not [null]. *)
Definition getCachedOpenAIModels (now : Z) (apiKey : option string)
  : M (list LLMModel) :=
  fun h =>
    let refresh : M (list LLMModel) :=
      (models <- fetchOpenAIModels apiKey ;;
       update_cache models now ;;;
       ret models)%js in
    match cachedModels h with
    | Some cached =>
        if now - cacheTimestamp h <? CACHE_DURATION then ret cached h
        else refresh h
    | None => refresh h
    end.

Definition clearOpenAIModelsCache : M unit :=
  fun h =>
    (inr tt, {| cachedModels := None;
                cacheTimestamp := 0;
                requests := requests h |}).

End Adapter.

(** ** Vocabulary of the specification *)

(** [s] begins with [p]. *)
Definition starts_with (s p : string) : Prop := exists t, s = p ++ t.

(** [sub] occurs somewhere in [s]. *)
Definition contains (s sub : string) : Prop := exists a b, s = a ++ sub ++ b.

(** The identifiers the filter accepts by exact comparison. *)
Definition aliases : list string := [ "gpt-4o"; "gpt-4o-mini"; "chatgpt-4o-latest" ].

(** A chat-capable family: one of the three prefixes, or an alias. *)
Definition chat_family (s : string) : Prop :=
  starts_with s "gpt-" \/ starts_with s "o1" \/ starts_with s "o3" \/ In s aliases.

(** The retention rule in the words of the specification. *)
Definition retention_rule (s : string) : Prop :=
  chat_family s /\ ~ contains s "instruct" /\ ~ contains s "base".

(** [l1] is [l2] with some elements left out, the others in their order. *)
Inductive Subsequence {A} : list A -> list A -> Prop :=
| Subsequence_nil : Subsequence [] []
| Subsequence_skip a l1 l2 : Subsequence l1 l2 -> Subsequence l1 (a :: l2)
| Subsequence_keep a l1 l2 : Subsequence l1 l2 -> Subsequence (a :: l1) (a :: l2).

(** Ascending order of the keys. *)
Definition le_by {A} (key : A -> Z) (a b : A) : Prop := key a <= key b.

(** The rank by which catalog entries are ordered. *)
Definition rank (entry : LLMModel) : Z := getModelPriority (llm_id entry).

Definition rank_le (a b : LLMModel) : Prop := rank a <= rank b.

(** The entries of a catalog that have rank [r], in catalog order. *)
Definition of_rank (r : Z) (catalog : list LLMModel) : list LLMModel :=
  List.filter (fun entry => rank entry =? r) catalog.

(** The shorter retention predicate: the prefixes, the one alias that no
    prefix covers, and the two exclusions. *)
Definition isValidModel_simple (model : OpenAIModel) : bool :=
  (Js.startsWith (id model) "gpt-" ||
   Js.startsWith (id model) "o1" ||
   Js.startsWith (id model) "o3" ||
   String.eqb (id model) "chatgpt-4o-latest")
  && negb (Js.includes (id model) "instruct")
  && negb (Js.includes (id model) "base").

(** A record with the given identifier, as the upstream lists it. *)
Definition record (identifier : string) : OpenAIModel :=
  {| id := identifier; object := "model"; created := 0; owned_by := "openai" |}.

(** A credential is present when it is a non-empty string. *)
Definition present (v : option string) : Prop :=
  exists s, v = Some s /\ s <> EmptyString.

(** The cache answers at time [now] without a refresh. *)
Definition fresh (h : Heap) (now : Z) : Prop :=
  cachedModels h <> None /\ now - cacheTimestamp h < 300000.

(** What a request delivers when it succeeds: the response is 2xx, its
    body arrives whole and parses. *)
Definition delivered (o : Outcome) : option OpenAIModelsResponse :=
  match o with
  | Rejects _ => None
  | Resolves response =>
      if ok response then
        match body response with
        | Received _ (inr value) => Some value
        | _ => None
        end
      else None
  end.

(** The catalog a request yields to the caller of [fetchOpenAIModels]. *)
Definition catalog_of `{Unicode} (o : Outcome) : list LLMModel :=
  match delivered o with
  | Some value => processModels (data value)
  | None => []
  end.

(** The heap in which [models] were cached at time [now]. *)
Definition snapshot (models : list LLMModel) (now : Z) (h : Heap) : Heap :=
  {| cachedModels := Some models; cacheTimestamp := now; requests := requests h |}.

(** ** Sample surroundings *)

(** An engine for the sample runs, all of which are on ASCII text: beyond
    ASCII it leaves the text as it is. *)
Definition sample_engine : Unicode :=
  {| toUpperCase_beyond_ascii := fun s => s |}.

Definition env_with_key : Env :=
  {| NEXT_PUBLIC_OPENAI_API_KEY := None; OPENAI_API_KEY := Some "sk-test" |}.

Definition env_without_key : Env :=
  {| NEXT_PUBLIC_OPENAI_API_KEY := None; OPENAI_API_KEY := None |}.

(** An upstream that lists two models on every request. *)
Definition upstream_listing : nat -> string -> Outcome :=
  fun _ _ =>
    Resolves {| status := 200; statusText := "OK";
                body := Received "{...}"
                          (inr {| resp_object := "list";
                                  data := [record "gpt-4o"; record "o1-preview"] |}) |}.

(** An upstream that turns every request down. *)
Definition upstream_unauthorized : nat -> string -> Outcome :=
  fun _ _ =>
    Resolves {| status := 401; statusText := "Unauthorized";
                body := Received "{...}" (inl (new_Error "not parsed")) |}.

(** A heap whose snapshot was taken at time 1000. *)
Definition heap_cached_at_1000 `{Unicode} : Heap :=
  {| cachedModels := Some [toLLMModel (record "gpt-4o")];
     cacheTimestamp := 1000;
     requests := ["Bearer sk-test"] |}.

(** ** The route handlers over the adapter

    The [GET] and [POST] handlers that call [fetchOpenAIModels].  Of the
    request, [GET] uses the query parameter [apiKey] ([searchParams.get]
    gives [null] when it is missing) and [POST] uses the parsed body.  The
    clock enters as the text [new Date().toISOString()] renders. *)

(** The two shapes of JSON the handlers answer with. *)
Inductive RouteJson :=
| ModelsJson (success : bool) (models : list LLMModel) (count : nat)
             (timestamp : string)
| ErrorJson (success : bool) (error : string) (message : option string).

Record NextResponse := mkNextResponse {
  http_status : nat;
  json_body : RouteJson
}.

(** [NextResponse.json(body)] *)
Definition respond (body : RouteJson) : NextResponse :=
  {| http_status := 200; json_body := body |}.

(** [NextResponse.json(body, { status })] *)
Definition respond_with (body : RouteJson) (code : nat) : NextResponse :=
  {| http_status := code; json_body := body |}.

(** What [POST] finds in its request: [await request.json()] rejects, or
    the body is [null] and destructuring it throws; otherwise the value of
    [body.apiKey], a string or nothing ([None] also stands for a value that
    is not a string and is falsy). *)
Inductive PostRequest :=
| Unreadable (e : Error)
| Readable (apiKey : option string).

Section Routes.
Context `{U : Unicode}.
Variable env : Env.
Variable upstream : nat -> string -> Outcome.

(** The [catch] block the two handlers share. *)
Definition route_failure (error : Error) : M NextResponse :=
  ret (respond_with
         (ErrorJson false "Failed to fetch OpenAI models" (Some (message error)))
         500).

Definition GET (apiKey : option string) (timestamp : string) : M NextResponse :=
  try_catch
    (models <- fetchOpenAIModels env upstream (Js.or_else apiKey None) ;;
     ret (respond (ModelsJson true models (length models) timestamp)))%js
    route_failure.

Definition POST (request : PostRequest) (timestamp : string) : M NextResponse :=
  try_catch
    (match request with
     | Unreadable e => throw e
     | Readable apiKey =>
         if negb (Js.truthy apiKey) then
           ret (respond_with (ErrorJson false "API key is required" None) 400)
         else
           models <- fetchOpenAIModels env upstream apiKey ;;
           ret (respond (ModelsJson true models (length models) timestamp))
     end)%js
    route_failure.

End Routes.

(** ** The browser client singleton: [createSupabaseBrowserClient]

    The function reads whether it runs in a browser ([typeof window]),
    three environment variables and the module variable [supabaseClient].
    The URL parser ([new URL]) and the library function
    [createBrowserClient] are taken as they come. *)

(** The text whose UTF-8 encoding is the given bytes. *)
Definition utf8 (bytes : list nat) : string :=
  string_of_list_ascii (List.map ascii_of_nat bytes).

(** The white space and line terminators that [trim] removes, each in its
    UTF-8 encoding. *)
Definition white_space : list string :=
  Eval cbv in
    List.map utf8
      ([ [9]; [10]; [11]; [12]; [13]; [32];       (* TAB LF VT FF CR SPACE *)
        [194; 160];                              (* U+00A0 *)
        [225; 154; 128];                         (* U+1680 *)
        [226; 128; 128]; [226; 128; 129]; [226; 128; 130]; [226; 128; 131];
        [226; 128; 132]; [226; 128; 133]; [226; 128; 134]; [226; 128; 135];
        [226; 128; 136]; [226; 128; 137]; [226; 128; 138];
                                                 (* U+2000 to U+200A *)
        [226; 128; 168]; [226; 128; 169];        (* U+2028 U+2029 *)
        [226; 128; 175];                         (* U+202F *)
        [226; 129; 159];                         (* U+205F *)
        [227; 128; 128];                         (* U+3000 *)
        [239; 187; 191] ])%nat.                  (* U+FEFF *)

(** [t] is one character of white space. *)
Definition whitespace (t : string) : bool := existsb (String.eqb t) white_space.

(** [s] is white space throughout.  A character of white space takes one,
    two or three bytes, and its first byte tells how many. *)
Fixpoint all_white (s : string) : bool :=
  match s with
  | EmptyString => true
  | String a s1 =>
      if whitespace (String a EmptyString) then all_white s1
      else
        match s1 with
        | EmptyString => false
        | String b s2 =>
            if whitespace (String a (String b EmptyString)) then all_white s2
            else
              match s2 with
              | EmptyString => false
              | String c s3 =>
                  if whitespace (String a (String b (String c EmptyString)))
                  then all_white s3
                  else false
              end
        end
  end.

(** [s] without the white space it begins with. *)
Fixpoint trimStart (s : string) : string :=
  match s with
  | EmptyString => EmptyString
  | String a s1 =>
      if whitespace (String a EmptyString) then trimStart s1
      else
        match s1 with
        | EmptyString => s
        | String b s2 =>
            if whitespace (String a (String b EmptyString)) then trimStart s2
            else
              match s2 with
              | EmptyString => s
              | String c s3 =>
                  if whitespace (String a (String b (String c EmptyString)))
                  then trimStart s3
                  else s
              end
        end
  end.

(** [s] without the white space it ends with: the text up to the point
    from which all is white space. *)
Fixpoint trimEnd (s : string) : string :=
  match s with
  | EmptyString => EmptyString
  | String c s' => if all_white s then EmptyString else String c (trimEnd s')
  end.

(** [s.trim()] *)
Definition trim (s : string) : string := trimEnd (trimStart s).

Record SupabaseEnv := mkSupabaseEnv {
  window_defined : bool;
  NEXT_PUBLIC_SUPABASE_URL : option string;
  NEXT_PUBLIC_SUPABASE_ANON_KEY : option string;
  NODE_ENV : option string
}.

Section Supabase.
Variable Client : Type.
Variable createBrowserClient : string -> string -> Error + Client.
Variable URL_parses : string -> bool.

(** What the function does when the configuration is no good: in
    development it gives up quietly, elsewhere it throws. *)
Definition unconfigured (e : SupabaseEnv) (reason : string) (supabaseClient : option Client)
  : (Error + option Client) * option Client :=
  match NODE_ENV e with
  | Some mode =>
      if String.eqb mode "development" then (inr None, supabaseClient)
      else (inl (new_Error reason), supabaseClient)
  | None => (inl (new_Error reason), supabaseClient)
  end.

(** One call, from the value of [supabaseClient] before it to the result
    and the value after it. *)
Definition createSupabaseBrowserClient (e : SupabaseEnv) (supabaseClient : option Client)
  : (Error + option Client) * option Client :=
  if negb (window_defined e) then (inr None, supabaseClient)
  else
    match supabaseClient with
    | Some client => (inr (Some client), supabaseClient)
    | None =>
        let supabaseUrl := NEXT_PUBLIC_SUPABASE_URL e in
        let supabaseAnonKey := NEXT_PUBLIC_SUPABASE_ANON_KEY e in
        if (negb (Js.truthy supabaseUrl) || negb (Js.truthy supabaseAnonKey)
            || String.eqb (trim (Js.template supabaseUrl)) EmptyString
            || String.eqb (trim (Js.template supabaseAnonKey)) EmptyString)%bool
        then unconfigured e "Supabase URL and Anon Key are required" supabaseClient
        else if negb (URL_parses (Js.template supabaseUrl))
        then unconfigured e "Invalid Supabase URL format" supabaseClient
        else
          match createBrowserClient (Js.template supabaseUrl)
                                    (Js.template supabaseAnonKey) with
          | inl error => (inl error, supabaseClient)
          | inr client => (inr (Some client), Some client)
          end
    end.

(** A series of calls, each in its own surroundings. *)
Fixpoint supabase_calls (es : list SupabaseEnv) (supabaseClient : option Client)
  : list (Error + option Client) * option Client :=
  match es with
  | [] => ([], supabaseClient)
  | e :: rest =>
      let (result, supabaseClient') := createSupabaseBrowserClient e supabaseClient in
      let (results, final) := supabase_calls rest supabaseClient' in
      (result :: results, final)
  end.

End Supabase.

Arguments unconfigured {Client}.
Arguments createSupabaseBrowserClient {Client}.
Arguments supabase_calls {Client}.

(** A text made of characters of white space and nothing else. *)
Inductive White : string -> Prop :=
| White_empty : White EmptyString
| White_more (t s : string) : In t white_space -> White s -> White (t ++ s).

(** A configuration value that is missing or holds nothing but white
    space. *)
Definition blank (v : option string) : Prop :=
  match v with
  | None => True
  | Some s => White s
  end.

(** The surroundings are those of development. *)
Definition in_development (e : SupabaseEnv) : Prop :=
  NODE_ENV e = Some "development".

(** The characters of a string. *)
Definition chars (s : string) : list ascii := list_ascii_of_string s.

Definition lowercase (c : ascii) : Prop :=
  (97 <= nat_of_ascii c <= 122)%nat.

(** A text of ASCII characters only. *)
Definition ascii_text (s : string) : Prop :=
  Forall (fun c => (nat_of_ascii c < 128)%nat) (chars s).

(** The names every object literal inherits from [Object.prototype]; a
    lookup [table[key]] finds them although the table does not list
    them. *)
Definition Object_prototype_keys : list string :=
  [ "constructor"; "__defineGetter__"; "__defineSetter__"; "hasOwnProperty";
    "__lookupGetter__"; "__lookupSetter__"; "isPrototypeOf";
    "propertyIsEnumerable"; "toString"; "valueOf"; "__proto__";
    "toLocaleString" ].

(** A list fit to be served as a catalog: in ascending order of rank, and
    made of entries whose identifiers obey the retention rule. *)
Definition catalog_ok (models : list LLMModel) : Prop :=
  StronglySorted rank_le models
  /\ Forall (fun entry => retention_rule (llm_id entry)) models.

(** Whatever the cache holds is fit to be served. *)
Definition cache_ok (h : Heap) : Prop :=
  forall models, cachedModels h = Some models -> catalog_ok models.

(** A call of one of the three exported operations. *)
Inductive Call :=
| CallFetch (apiKey : option string)
| CallCached (now : Z) (apiKey : option string)
| CallClear.

Section Session.
Context `{U : Unicode}.
Variable env : Env.
Variable upstream : nat -> string -> Outcome.

(** The heap a call leaves behind. *)
Definition step (call : Call) (h : Heap) : Heap :=
  match call with
  | CallFetch apiKey => snd (fetchOpenAIModels env upstream apiKey h)
  | CallCached now apiKey => snd (getCachedOpenAIModels env upstream now apiKey h)
  | CallClear => snd (clearOpenAIModelsCache h)
  end.

(** The heap after a series of calls, one after the other. *)
Definition run (calls : list Call) (h : Heap) : Heap :=
  List.fold_left (fun h' call => step call h') calls h.

End Session.

(** ** String primitives meet their meaning *)

Section Properties.
Context `{U : Unicode}.

Lemma prefix_starts_with (p s : string) :
  String.prefix p s = true <-> starts_with s p.
Proof.
  revert s; induction p as [|c p IH]; intros s.
  - split; [intros _; exists s; reflexivity | intros _; destruct s; reflexivity].
  - destruct s as [|d s]; simpl.
    + split; [discriminate | intros [t Ht]; discriminate].
    + destruct (ascii_dec c d) as [->|Hcd].
      * rewrite IH. split; intros [t Ht]; exists t.
        -- simpl; now rewrite Ht.
        -- simpl in Ht; now inversion Ht.
      * split; [discriminate | intros [t Ht]; simpl in Ht; inversion Ht; congruence].
Qed.

Lemma startsWith_spec (s p : string) :
  Js.startsWith s p = true <-> starts_with s p.
Proof. apply prefix_starts_with. Qed.

Lemma includes_spec (s sub : string) :
  Js.includes s sub = true <-> contains s sub.
Proof.
  induction s as [|c s IH]; cbn [Js.includes]; rewrite orb_true_iff, prefix_starts_with.
  - split.
    + intros [[t Ht]|H]; [|discriminate]. exists EmptyString, t. exact Ht.
    + intros [a [b Hab]]. left. destruct a; [exists b; exact Hab | discriminate].
  - rewrite IH. split.
    + intros [[t Ht]|[a [b Hab]]].
      * exists EmptyString, t. exact Ht.
      * exists (String c a), b. simpl. now rewrite Hab.
    + intros [a [b Hab]]. destruct a as [|d a].
      * left. exists b. exact Hab.
      * right. simpl in Hab. inversion Hab. now exists a, b.
Qed.

Lemma includes_false (s sub : string) :
  Js.includes s sub = false <-> ~ contains s sub.
Proof.
  rewrite <- includes_spec. destruct (Js.includes s sub); split; congruence.
Qed.

Lemma isValidModel_spec (model : OpenAIModel) :
  isValidModel model = true <-> retention_rule (id model).
Proof.
  unfold isValidModel, retention_rule, chat_family, aliases.
  rewrite !andb_true_iff, !orb_true_iff, !negb_true_iff, !startsWith_spec,
    !includes_false, !String.eqb_eq.
  simpl. intuition congruence.
Qed.

Lemma filter_Subsequence {A} (p : A -> bool) (l : list A) :
  Subsequence (List.filter p l) l.
Proof.
  induction l as [|a l IH]; simpl; [constructor|].
  destruct (p a); now constructor.
Qed.

(** ** The stable sort *)

Section SortFacts.
Context {A : Type} (compareFn : A -> A -> Z) (key : A -> Z).
Hypothesis compare_key : forall a b, compareFn a b = key a - key b.

Lemma insert_Permutation (a : A) (l : list A) :
  Permutation (Js.insert compareFn a l) (a :: l).
Proof.
  induction l as [|b l IH]; simpl; [reflexivity|].
  destruct (compareFn a b <=? 0); [reflexivity|].
  rewrite IH. apply perm_swap.
Qed.

Lemma sort_Permutation (l : list A) : Permutation (Js.sort compareFn l) l.
Proof.
  induction l as [|a l IH]; simpl; [reflexivity|].
  rewrite insert_Permutation. now constructor.
Qed.

Lemma insert_sorted (a : A) (l : list A) :
  StronglySorted (le_by key) l -> StronglySorted (le_by key) (Js.insert compareFn a l).
Proof.
  induction 1 as [|b l Hl IH Hb]; simpl.
  - repeat constructor.
  - destruct (Z.leb_spec (compareFn a b) 0) as [Hab|Hab];
      rewrite compare_key in Hab.
    + constructor; [now constructor|].
      constructor; [unfold le_by; lia|].
      eapply Forall_impl; [|exact Hb]. unfold le_by; intros; lia.
    + constructor; [exact IH|].
      eapply Permutation_Forall; [symmetry; apply insert_Permutation|].
      constructor; [unfold le_by; lia | exact Hb].
Qed.

Lemma sort_sorted (l : list A) : StronglySorted (le_by key) (Js.sort compareFn l).
Proof.
  induction l as [|a l IH]; simpl; [constructor | now apply insert_sorted].
Qed.

(** Insertion never moves [a] past an element of its own key. *)
Lemma insert_of_key (r : Z) (a : A) (l : list A) :
  List.filter (fun x => key x =? r) (Js.insert compareFn a l)
  = List.filter (fun x => key x =? r) (a :: l).
Proof.
  induction l as [|b l IH]; [reflexivity|].
  cbn [Js.insert].
  destruct (Z.leb_spec (compareFn a b) 0) as [Hab|Hab]; [reflexivity|].
  rewrite compare_key in Hab.
  cbn [List.filter] in *. rewrite IH.
  destruct (Z.eqb_spec (key a) r) as [Ha|Ha]; [|reflexivity].
  destruct (Z.eqb_spec (key b) r) as [Hb|Hb]; [lia | reflexivity].
Qed.

Lemma sort_of_key (r : Z) (l : list A) :
  List.filter (fun x => key x =? r) (Js.sort compareFn l)
  = List.filter (fun x => key x =? r) l.
Proof.
  induction l as [|a l IH]; [reflexivity|].
  cbn [Js.sort]. rewrite insert_of_key. cbn [List.filter]. now rewrite IH.
Qed.
Lemma none_of_smaller_key (r : Z) (l : list A) :
  Forall (fun x => r < key x) l ->
  List.filter (fun x => key x =? r) l = [].
Proof.
  induction 1 as [|x l Hx _ IH]; [reflexivity|].
  cbn [List.filter]. destruct (Z.eqb_spec (key x) r); [lia | exact IH].
Qed.

(** Two sorted arrangements that list every key class in the same order
    are the same list: the result of a stable sort is determined. *)
Lemma sorted_stable_unique (l1 l2 : list A) :
  StronglySorted (le_by key) l1 -> StronglySorted (le_by key) l2 ->
  (forall r, List.filter (fun x => key x =? r) l1
             = List.filter (fun x => key x =? r) l2) ->
  l1 = l2.
Proof.
  intros H1. revert l2.
  induction H1 as [|a l1 Hs1 IH Ha]; intros l2 H2 Hf.
  - destruct l2 as [|b l2]; [reflexivity|].
    specialize (Hf (key b)). cbn [List.filter] in Hf.
    rewrite Z.eqb_refl in Hf. discriminate.
  - destruct l2 as [|b l2].
    { specialize (Hf (key a)). cbn [List.filter] in Hf.
      rewrite Z.eqb_refl in Hf. discriminate. }
    inversion H2 as [|? ? Hs2 Hb]; subst.
    assert (Hab : key a = key b).
    { destruct (Z.lt_total (key a) (key b)) as [Hlt|[Heq|Hgt]]; [|exact Heq|].
      - specialize (Hf (key a)). cbn [List.filter] in Hf.
        rewrite Z.eqb_refl in Hf.
        destruct (Z.eqb_spec (key b) (key a)); [lia|].
        rewrite (none_of_smaller_key (key a) l2) in Hf; [discriminate|].
        eapply Forall_impl; [|exact Hb]. unfold le_by; intros; lia.
      - specialize (Hf (key b)). cbn [List.filter] in Hf.
        rewrite Z.eqb_refl in Hf.
        destruct (Z.eqb_spec (key a) (key b)); [lia|].
        rewrite (none_of_smaller_key (key b) l1) in Hf; [discriminate|].
        eapply Forall_impl; [|exact Ha]. unfold le_by; intros; lia. }
    assert (Heq : a = b).
    { specialize (Hf (key a)). cbn [List.filter] in Hf.
      rewrite <- Hab, Z.eqb_refl in Hf. congruence. }
    subst b. f_equal. apply IH; [exact Hs2|].
    intros r. specialize (Hf r). cbn [List.filter] in Hf.
    destruct (key a =? r); congruence.
Qed.

(** Whatever sorted, stable arrangement of [l] an engine returns, it is
    the list [Js.sort] computes. *)
Lemma sort_determined (l l' : list A) :
  StronglySorted (le_by key) l' ->
  (forall r, List.filter (fun x => key x =? r) l'
             = List.filter (fun x => key x =? r) l) ->
  l' = Js.sort compareFn l.
Proof.
  intros Hs Hf. apply sorted_stable_unique; [exact Hs | apply sort_sorted|].
  intros r. now rewrite Hf, sort_of_key.
Qed.

End SortFacts.

Lemma StronglySorted_split {A} (R : A -> A -> Prop) (l1 l2 : list A) (x : A) :
  StronglySorted R (l1 ++ x :: l2)%list ->
  Forall (fun y => R y x) l1 /\ Forall (R x) l2.
Proof.
  induction l1 as [|a l1 IH]; simpl; intros H; inversion H; subst.
  - split; [constructor | assumption].
  - destruct (IH H2) as [H1 H4]. split; [|exact H4].
    constructor; [|exact H1].
    rewrite Forall_forall in H3. apply H3, in_elt.
  Qed.

Lemma comparePriority_rank (a b : LLMModel) :
  comparePriority a b = rank a - rank b.
Proof. reflexivity. Qed.

Lemma first_match_none (entries : list (string * Z)) (modelId : string) :
  (forall key, In key (List.map fst entries) -> ~ contains modelId key) ->
  first_match entries modelId = 999.
Proof.
  induction entries as [|[model priority] rest IH]; simpl; intros H; [reflexivity|].
  destruct (Js.includes modelId model) eqn:E.
  - apply includes_spec in E. exfalso. apply (H model); [now left | exact E].
  - apply IH. intros key Hk. apply H. now right.
Qed.

Lemma processModels_origin (records : list OpenAIModel) (entry : LLMModel) :
  In entry (processModels records) ->
  exists model, In model records /\ isValidModel model = true
                /\ entry = toLLMModel model.
Proof.
  unfold processModels, retained. intros H.
  eapply Permutation_in in H; [|apply sort_Permutation].
  apply in_map_iff in H. destruct H as [model [<- H]].
  apply filter_In in H. now exists model.
Qed.

(** ** Enrichment and ranking of single identifiers *)

(** C1. The code at the identifier [gpt-4o-mini]: the display name is
    "GPT-4o Mini", the entry is multimodal and not a preview, and the rank
    table does list 7 for it; but [getModelPriority] answers 5, because the
    loop meets the key [gpt-4o], which occurs in [gpt-4o-mini], two entries
    before the key [gpt-4o-mini] itself. *)
Theorem gpt_4o_mini_enrichment :
  formatModelName "gpt-4o-mini" = "GPT-4o Mini"
  /\ isMultiModalModel "gpt-4o-mini" = true
  /\ isBetaModel "gpt-4o-mini" = false
  /\ lookup priorities "gpt-4o-mini" = Some 7
  /\ getModelPriority "gpt-4o-mini" = 5.
Proof. repeat split. Qed.

Lemma o1_preview_listed_first :
  List.map llm_id (processModels [record "gpt-4o"; record "o1-preview"])
  = ["o1-preview"; "gpt-4o"].
Proof. reflexivity. Qed.

(** C2, amended. A record with identifier [o1-preview] is retained, its
    entry is a preview, its rank is 4 (the rank of the key [o1] that it
    contains), and in every catalog the entries listed before it have rank
    at most 4 and the entries listed after it have rank at least 4. *)
Theorem o1_preview_enrichment
  (records : list OpenAIModel) (before after : list LLMModel) (entry : LLMModel) :
  llm_id entry = "o1-preview" ->
  processModels records = (before ++ entry :: after)%list ->
  (forall model, id model = "o1-preview" -> isValidModel model = true)
  /\ isBeta entry = true
  /\ rank entry = 4
  /\ Forall (fun e => rank e <= 4) before
  /\ Forall (fun e => 4 <= rank e) after.
Proof.
  intros Hid Hout.
  assert (Hrank : rank entry = 4) by (unfold rank; now rewrite Hid).
  split; [|split; [|split; [exact Hrank|]]].
  - intros model Hm. unfold isValidModel. now rewrite Hm.
  - destruct (processModels_origin records entry) as [model [_ [_ ->]]].
    + rewrite Hout. apply in_elt.
    + simpl in *. now rewrite Hid.
  - pose proof (sort_sorted comparePriority rank comparePriority_rank
                  (List.map toLLMModel (retained records))) as Hs.
    fold (processModels records) in Hs. rewrite Hout in Hs.
    apply StronglySorted_split in Hs. unfold le_by in Hs.
    now rewrite Hrank in Hs.
Qed.

(** ** The filter *)

(** C4. A record is retained exactly when its identifier starts with
    [gpt-], [o1] or [o3] or is one of the aliases, and contains neither
    [instruct] nor [base]; so an identifier containing [instruct] or [base]
    is never retained, whatever its prefix; and the retained records are
    the input records with some left out, in the order of the input. *)
Theorem filter_retention (records : list OpenAIModel) :
  (forall model, isValidModel model = true <-> retention_rule (id model))
  /\ (forall model, In model (retained records)
                    <-> In model records /\ retention_rule (id model))
  /\ (forall model, contains (id model) "instruct" \/ contains (id model) "base" ->
                    ~ In model (retained records))
  /\ Subsequence (retained records) records.
Proof.
  assert (Hin : forall model, In model (retained records)
                              <-> In model records /\ retention_rule (id model)).
  { intros model. unfold retained. now rewrite filter_In, isValidModel_spec. }
  split; [exact isValidModel_spec|]. split; [exact Hin|]. split.
  - intros model Hbad Hret. apply Hin in Hret.
    destruct Hret as [_ [_ [Hi Hb]]]. tauto.
  - apply filter_Subsequence.
Qed.

(** C10. The retention predicate of the code and the shorter predicate
    that drops the comparisons with [gpt-4o] and [gpt-4o-mini] agree on
    every record: both identifiers start with [gpt-]. *)
Theorem isValidModel_simplifies (model : OpenAIModel) :
  isValidModel model = isValidModel_simple model.
Proof.
  unfold isValidModel, isValidModel_simple.
  destruct (Js.startsWith (id model) "gpt-") eqn:Hgpt; [reflexivity|].
  destruct (String.eqb_spec (id model) "gpt-4o") as [E|_];
    [rewrite E in Hgpt; discriminate|].
  destruct (String.eqb_spec (id model) "gpt-4o-mini") as [E|_];
    [rewrite E in Hgpt; discriminate|].
  now rewrite !orb_false_r.
Qed.

(** ** The ordering *)

Lemma first_match_first
  (before : list (string * Z)) (key : string) (priority : Z)
  (after : list (string * Z)) (modelId : string) :
  contains modelId key ->
  (forall k, In k (List.map fst before) -> ~ contains modelId k) ->
  first_match (before ++ (key, priority) :: after) modelId = priority.
Proof.
  intros Hkey Hbefore.
  induction before as [|[model p] before IH]; simpl.
  - apply includes_spec in Hkey. now rewrite Hkey.
  - destruct (Js.includes modelId model) eqn:E.
    + apply includes_spec in E. exfalso. apply (Hbefore model); [now left | exact E].
    + apply IH. intros k Hk. apply Hbefore. now right.
Qed.

(** C3. For every list of upstream records the catalog is in ascending
    order of rank, holds exactly the entries of the retained records, and
    for each rank lists the entries of that rank in their upstream order.
    The rank of an identifier comes from the static table: it is the
    integer the table gives to the first of its keys that occurs in the
    identifier, and 999 when no key occurs in it. *)
Theorem catalog_sorted_stable (records : list OpenAIModel) (modelId : string) :
  StronglySorted rank_le (processModels records)
  /\ Permutation (processModels records) (List.map toLLMModel (retained records))
  /\ (forall r, of_rank r (processModels records)
                = of_rank r (List.map toLLMModel (retained records)))
  /\ (forall entry, rank entry = getModelPriority (llm_id entry))
  /\ priorities = [ ("gpt-5", 1); ("gpt-5-mini", 2); ("gpt-4.5-preview", 3);
                    ("o1", 4); ("gpt-4o", 5); ("o1-mini", 6);
                    ("gpt-4o-mini", 7); ("gpt-4-turbo", 8); ("gpt-4", 9);
                    ("gpt-3.5-turbo", 10) ]
  /\ (forall before key priority after,
        priorities = (before ++ (key, priority) :: after)%list ->
        contains modelId key ->
        (forall k, In k (List.map fst before) -> ~ contains modelId k) ->
        getModelPriority modelId = priority)
  /\ ((forall key, In key (List.map fst priorities) -> ~ contains modelId key) ->
      getModelPriority modelId = 999).
Proof.
  split; [|split; [|split; [|split; [|split; [|split]]]]].
  - exact (sort_sorted comparePriority rank comparePriority_rank _).
  - apply sort_Permutation.
  - intros r. exact (sort_of_key comparePriority rank comparePriority_rank r _).
  - reflexivity.
  - reflexivity.
  - intros before key priority after Htable Hkey Hbefore.
    unfold getModelPriority. rewrite Htable.
    now apply first_match_first.
  - apply first_match_none.
Qed.

(** ** Running the adapter *)

Lemma truthy_present (v : option string) : Js.truthy v = true <-> present v.
Proof.
  unfold present. destruct v as [s|]; simpl.
  - rewrite negb_true_iff. split.
    + intros H. exists s. split; [reflexivity|]. now apply String.eqb_neq.
    + intros [s' [[= <-] H]]. now apply String.eqb_neq.
  - split; [discriminate | intros [s [H _]]; discriminate].
Qed.

Lemma truthy_absent (v : option string) : Js.truthy v = false <-> ~ present v.
Proof.
  rewrite <- truthy_present. destruct (Js.truthy v); split; congruence.
Qed.

Section AdapterFacts.
Variable env : Env.
Variable upstream : nat -> string -> Outcome.

Lemma resolve_key_present (apiKey : option string) :
  present (resolve_key env apiKey) <->
  present apiKey \/ present (NEXT_PUBLIC_OPENAI_API_KEY env)
  \/ present (OPENAI_API_KEY env).
Proof.
  unfold resolve_key, Js.or_else. rewrite <- !truthy_present.
  destruct (Js.truthy apiKey) eqn:E1; [rewrite E1; intuition|].
  destruct (Js.truthy (NEXT_PUBLIC_OPENAI_API_KEY env)) eqn:E2;
    [rewrite E2; intuition | intuition congruence].
Qed.

(** Without a credential the [try] block returns at once. *)
Lemma try_without_key (apiKey : option string) (h : Heap) :
  ~ present (resolve_key env apiKey) ->
  fetchOpenAIModels_try env upstream apiKey h = (inr [], h).
Proof.
  intros H. apply truthy_absent in H. unfold fetchOpenAIModels_try.
  cbv zeta. now rewrite H.
Qed.

(** With a credential exactly one request goes out, and the function
    returns what that request yields. *)
Lemma fetch_with_key (apiKey : option string) (key : string) (h : Heap) :
  resolve_key env apiKey = Some key -> key <> EmptyString ->
  fetchOpenAIModels env upstream apiKey h
  = (inr (catalog_of (upstream (length (requests h)) ("Bearer " ++ key))),
     sent ("Bearer " ++ key) h).
Proof.
  intros Hk Hne.
  assert (Ht : Js.truthy (Some key) = true)
    by (apply truthy_present; now exists key).
  unfold fetchOpenAIModels, try_catch, fetchOpenAIModels_try, catalog_of, delivered.
  cbv zeta. rewrite Hk, Ht. cbn [negb Js.template]. unfold bind, fetch.
  destruct (upstream (length (requests h)) ("Bearer " ++ key)) as [e|response];
    [reflexivity|].
  destruct (ok response); cbn [negb]; unfold text, json;
    destruct (body response) as [e|bodyText [e|value]]; reflexivity.
Qed.

Lemma fetch_without_key (apiKey : option string) (h : Heap) :
  ~ present (resolve_key env apiKey) ->
  fetchOpenAIModels env upstream apiKey h = (inr [], h).
Proof.
  intros H. unfold fetchOpenAIModels, try_catch.
  now rewrite try_without_key.
Qed.

(** [fetchOpenAIModels] always returns, and only ever adds to the heap the
    requests it sends. *)
Lemma fetch_returns (apiKey : option string) (h : Heap) :
  exists models h',
    fetchOpenAIModels env upstream apiKey h = (inr models, h')
    /\ cachedModels h' = cachedModels h
    /\ cacheTimestamp h' = cacheTimestamp h.
Proof.
  destruct (Js.truthy (resolve_key env apiKey)) eqn:E.
  - apply truthy_present in E. destruct E as [key [Hk Hne]].
    eexists _, _. rewrite (fetch_with_key _ _ _ Hk Hne). now repeat split.
  - apply truthy_absent in E.
    eexists _, _. rewrite (fetch_without_key _ _ E). now repeat split.
Qed.

(** A miss: the function refreshes and stores what the refresh returned. *)
Lemma cached_miss (now : Z) (apiKey : option string) (h : Heap)
      (models : list LLMModel) (h' : Heap) :
  ~ fresh h now ->
  fetchOpenAIModels env upstream apiKey h = (inr models, h') ->
  getCachedOpenAIModels env upstream now apiKey h
  = (inr models, snapshot models now h').
Proof.
  intros Hmiss Hf. unfold getCachedOpenAIModels, fresh, CACHE_DURATION in *.
  destruct (cachedModels h) as [cached|].
  - destruct (Z.ltb_spec (now - cacheTimestamp h) (5 * 60 * 1000)) as [Hlt|_].
    + exfalso. apply Hmiss. split; [discriminate | lia].
    + unfold bind. now rewrite Hf.
  - unfold bind. now rewrite Hf.
Qed.

(** A hit: the cached list, and nothing else happens. *)
Lemma cached_hit (now : Z) (apiKey : option string) (h : Heap)
      (models : list LLMModel) :
  cachedModels h = Some models -> now - cacheTimestamp h < 300000 ->
  getCachedOpenAIModels env upstream now apiKey h = (inr models, h).
Proof.
  intros Hc Hlt. unfold getCachedOpenAIModels, CACHE_DURATION. rewrite Hc.
  destruct (Z.ltb_spec (now - cacheTimestamp h) (5 * 60 * 1000)) as [_|Hge];
    [reflexivity | lia].
Qed.

End AdapterFacts.

(** ** The fetch and the cache *)

Section AdapterClaims.
Variable env : Env.
Variable upstream : nat -> string -> Outcome.

(** C8. When neither the argument nor either of the two environment
    variables holds a non-empty credential, [fetchOpenAIModels] returns the
    empty list, sends no request and leaves the heap as it was; the [try]
    block itself returns, so no error is involved. *)
Theorem no_credential_no_request (apiKey : option string) (h : Heap) :
  ~ present apiKey ->
  ~ present (NEXT_PUBLIC_OPENAI_API_KEY env) ->
  ~ present (OPENAI_API_KEY env) ->
  fetchOpenAIModels_try env upstream apiKey h = (inr [], h)
  /\ fetchOpenAIModels env upstream apiKey h = (inr [], h).
Proof.
  intros H1 H2 H3.
  assert (H : ~ present (resolve_key env apiKey))
    by (rewrite resolve_key_present; tauto).
  split; [now apply try_without_key | now apply fetch_without_key].
Qed.

(** C7, amended. For every response with a status outside 200..299 the
    [try] block throws: when the body of the response can be read, the
    error whose message carries the status code and the status text; when
    reading the body fails, the error of that failed read.  Either way
    [fetchOpenAIModels] returns the empty list; whatever the [try] block
    throws becomes the empty list; and the three exported operations return
    on every heap, for every upstream. *)
Theorem upstream_errors_become_empty :
  (forall (apiKey : option string) (key : string) (h : Heap)
          (response : Response),
      resolve_key env apiKey = Some key -> key <> EmptyString ->
      ~ (200 <= status response <= 299)%nat ->
      upstream (length (requests h)) ("Bearer " ++ key) = Resolves response ->
      fst (fetchOpenAIModels_try env upstream apiKey h)
      = inl match body response with
            | Received _ _ =>
                new_Error ("OpenAI API error: "
                           ++ Js.number_to_string (status response)
                           ++ " " ++ statusText response)
            | Truncated e => e
            end
      /\ fst (fetchOpenAIModels env upstream apiKey h) = inr [])
  /\ (forall apiKey h e h',
         fetchOpenAIModels_try env upstream apiKey h = (inl e, h') ->
         fetchOpenAIModels env upstream apiKey h = (inr [], h'))
  /\ (forall apiKey h, exists models h',
         fetchOpenAIModels env upstream apiKey h = (inr models, h'))
  /\ (forall now apiKey h, exists models h',
         getCachedOpenAIModels env upstream now apiKey h = (inr models, h'))
  /\ (forall h, exists h', clearOpenAIModelsCache h = (inr tt, h')).
Proof.
  split; [|split; [|split; [|split]]].
  - intros apiKey key h response Hk Hne Hcode Hup.
    assert (Ht : Js.truthy (Some key) = true)
      by (apply truthy_present; now exists key).
    assert (Hok : ok response = false).
    { unfold ok. apply andb_false_iff.
      destruct (Nat.leb_spec 200 (status response)); [|now left].
      destruct (Nat.leb_spec (status response) 299); [lia | now right]. }
    unfold fetchOpenAIModels, try_catch, fetchOpenAIModels_try.
    cbv zeta. rewrite Hk, Ht. cbn [negb Js.template]. unfold bind, fetch.
    rewrite Hup, Hok. cbn [negb]. unfold text.
    destruct (body response) as [e|bodyText parsed]; split; reflexivity.
  - intros apiKey h e h' Htry. unfold fetchOpenAIModels, try_catch.
    now rewrite Htry.
  - intros apiKey h.
    destruct (fetch_returns env upstream apiKey h) as [models [h' [H _]]].
    now exists models, h'.
  - intros now apiKey h.
    destruct (fetch_returns env upstream apiKey h) as [models [h' [H _]]].
    unfold getCachedOpenAIModels.
    destruct (cachedModels h) as [cached|].
    + destruct (now - cacheTimestamp h <? CACHE_DURATION).
      * now exists cached, h.
      * unfold bind. rewrite H. eexists _, _; reflexivity.
    + unfold bind. rewrite H. eexists _, _; reflexivity.
  - intros h. now eexists.
Qed.

(** C5. When a snapshot exists and [now] minus its timestamp is less than
    300000, [getCachedOpenAIModels] returns the cached list and changes
    nothing: no request is sent.  So a call that refreshes (with a
    credential) followed by a call less than 300000 ms later send one
    request between them, and the second returns what the first did. *)
Theorem cache_serves_within_ttl :
  (forall (now : Z) (apiKey : option string) (h : Heap) (models : list LLMModel),
      cachedModels h = Some models -> now - cacheTimestamp h < 300000 ->
      getCachedOpenAIModels env upstream now apiKey h = (inr models, h))
  /\ (forall (now1 now2 : Z) (apiKey1 apiKey2 : option string) (h : Heap),
         ~ fresh h now1 -> present (resolve_key env apiKey1) ->
         now2 - now1 < 300000 ->
         exists models h1,
           getCachedOpenAIModels env upstream now1 apiKey1 h = (inr models, h1)
           /\ getCachedOpenAIModels env upstream now2 apiKey2 h1 = (inr models, h1)
           /\ length (requests h1) = S (length (requests h))).
Proof.
  split.
  - intros now apiKey h models. apply cached_hit.
  - intros now1 now2 apiKey1 apiKey2 h Hmiss [key [Hk Hne]] Hlt.
    pose proof (fetch_with_key env upstream apiKey1 key h Hk Hne) as Hf.
    eexists _, _. split; [exact (cached_miss _ _ _ _ _ _ _ Hmiss Hf)|]. split.
    + now apply cached_hit.
    + cbn [snapshot sent requests]. rewrite length_app. simpl. lia.
Qed.

(** C6. On a miss [getCachedOpenAIModels] stores what [fetchOpenAIModels]
    returned, with the current time, whatever it returned.  When the request
    failed that is the empty list, and then every call less than 300000 ms
    later is answered with the empty list from the cache. *)
Theorem miss_caches_whatever_returns (now : Z) (apiKey : option string) (h : Heap) :
  ~ fresh h now ->
  exists models h1,
    fetchOpenAIModels env upstream apiKey h = (inr models, h1)
    /\ getCachedOpenAIModels env upstream now apiKey h
       = (inr models, snapshot models now h1)
    /\ cachedModels (snapshot models now h1) = Some models
    /\ cacheTimestamp (snapshot models now h1) = now
    /\ (forall key, resolve_key env apiKey = Some key -> key <> EmptyString ->
                    delivered (upstream (length (requests h)) ("Bearer " ++ key)) = None ->
                    models = [])
    /\ (models = [] ->
        forall now' apiKey', now' - now < 300000 ->
          getCachedOpenAIModels env upstream now' apiKey' (snapshot models now h1)
          = (inr [], snapshot models now h1)).
Proof.
  intros Hmiss.
  destruct (fetch_returns env upstream apiKey h) as [models [h1 [Hf _]]].
  exists models, h1.
  split; [exact Hf|]. split; [now apply cached_miss|].
  split; [reflexivity|]. split; [reflexivity|]. split.
  - intros key Hk Hne Hfail.
    rewrite (fetch_with_key env upstream apiKey key h Hk Hne) in Hf.
    assert (Hm : models = catalog_of (upstream (length (requests h)) ("Bearer " ++ key)))
      by congruence.
    rewrite Hm. unfold catalog_of. now rewrite Hfail.
  - intros -> now' apiKey' Hlt. now apply cached_hit.
Qed.

(** C9, amended. [clearOpenAIModelsCache] resets both variables whatever
    they held, and the next [getCachedOpenAIModels] never answers from the
    cache, however recent the snapshot was: it runs [fetchOpenAIModels] and
    stores what that returns.  With a credential this sends exactly one new
    request; without one it sends none and the result is the empty list. *)
Theorem clear_forces_refresh (now : Z) (apiKey : option string) (h : Heap) :
  let cleared := snd (clearOpenAIModelsCache h) in
  clearOpenAIModelsCache h = (inr tt, cleared)
  /\ cachedModels cleared = None
  /\ cacheTimestamp cleared = 0
  /\ requests cleared = requests h
  /\ exists models h1,
       fetchOpenAIModels env upstream apiKey cleared = (inr models, h1)
       /\ getCachedOpenAIModels env upstream now apiKey cleared
          = (inr models, snapshot models now h1)
       /\ (forall key, resolve_key env apiKey = Some key -> key <> EmptyString ->
                       requests h1 = (requests h ++ [("Bearer " ++ key)%string])%list)
       /\ (~ present (resolve_key env apiKey) ->
           models = [] /\ requests h1 = requests h).
Proof.
  intros cleared. repeat (split; [reflexivity|]).
  assert (Hmiss : ~ fresh cleared now) by (intros [H _]; now apply H).
  destruct (fetch_returns env upstream apiKey cleared) as [models [h1 [Hf _]]].
  exists models, h1.
  split; [exact Hf|]. split; [now apply cached_miss|]. split.
  - intros key Hk Hne.
    rewrite (fetch_with_key env upstream apiKey key cleared Hk Hne) in Hf.
    now injection Hf as _ <-.
  - intros Hno.
    rewrite (fetch_without_key env upstream apiKey cleared Hno) in Hf.
    now injection Hf as <- <-.
Qed.

End AdapterClaims.

(** ** More on ranking and enrichment *)

Lemma contains_trans (s a b : string) :
  contains s a -> contains a b -> contains s b.
Proof.
  intros [p [q ->]] [u [v ->]].
  exists (p ++ u), (v ++ q).
  induction p as [|c p IH]; simpl.
  - induction u as [|d u IHu]; simpl; [|now rewrite IHu].
    induction b as [|d b IHb]; simpl; [reflexivity | now rewrite IHb].
  - now rewrite IH.
Qed.

Lemma includes_mono (a b s : string) :
  Js.includes a b = true -> Js.includes s a = true -> Js.includes s b = true.
Proof.
  rewrite !includes_spec. intros Hab Hsa. exact (contains_trans s a b Hsa Hab).
Qed.

(** A key of a table is shadowed when the loop has already tried a key
    that occurs in it. *)
Ltac shadowed :=
  exfalso;
  match goal with
  | Hf : Js.includes ?s ?a = false, Ht : Js.includes ?s ?b = true |- _ =>
      assert (Js.includes s a = true)
        by (apply (includes_mono b a); [reflexivity | exact Ht]);
      congruence
  end.

(** [getModelPriority] only ever answers 1, 3, 4, 5, 8, 9, 10 or 999: the
    ranks 2, 6 and 7 that the table gives to [gpt-5-mini], [o1-mini] and
    [gpt-4o-mini] are out of reach, because each of these keys contains a
    key listed before it. *)
Theorem priority_range (modelId : string) :
  In (getModelPriority modelId) [1; 3; 4; 5; 8; 9; 10; 999].
Proof.
  unfold getModelPriority. cbn [first_match priorities].
  repeat match goal with
         | |- context [if Js.includes ?s ?k then _ else _] =>
             destruct (Js.includes s k) eqn:?
         end;
    try (simpl; tauto); shadowed.
Qed.

(** Every identifier that is flagged as beta is flagged as multimodal. *)
Theorem beta_is_multimodal (modelId : string) :
  isBetaModel modelId = true -> isMultiModalModel modelId = true.
Proof.
  unfold isBetaModel, isMultiModalModel, Js.some, betaModels, multiModalModels.
  cbn [existsb]. rewrite !orb_false_r, !orb_true_iff.
  intros [H|[H|[H|H]]]; auto 10.
  do 7 right. apply (includes_mono "o1-preview" "o1"); [reflexivity | exact H].
Qed.

Lemma length_map_string (f : ascii -> ascii) (s : string) :
  String.length (Js.map_string f s) = String.length s.
Proof. induction s as [|c s IH]; simpl; congruence. Qed.

Lemma chars_map_string (f : ascii -> ascii) (s : string) :
  chars (Js.map_string f s) = List.map f (chars s).
Proof. induction s as [|c s IH]; simpl; [reflexivity | now rewrite <- IH]. Qed.

Lemma upper_then_space (c : ascii) :
  let d := if Ascii.eqb (Js.upper_ascii c) "-" then " "%char else Js.upper_ascii c in
  d <> "-"%char /\ ~ lowercase d.
Proof.
  destruct c as [[] [] [] [] [] [] [] []]; vm_compute;
    (split; [discriminate | lia]).
Qed.

Lemma is_ascii_spec (s : string) : Js.is_ascii s = true <-> ascii_text s.
Proof.
  unfold Js.is_ascii, ascii_text, chars. rewrite forallb_forall, Forall_forall.
  split; intros H c Hc; specialize (H c Hc); now apply Nat.ltb_lt.
Qed.

(** No identifier that obeys the retention rule is a name inherited from
    [Object.prototype]: on the identifiers that reach [formatModelName],
    looking the table up finds what the table lists and nothing else. *)
Lemma retained_not_inherited (s : string) :
  retention_rule s -> ~ In s Object_prototype_keys.
Proof.
  intros Hrule Hin.
  apply (isValidModel_spec (record s)) in Hrule.
  simpl in Hin.
  repeat (destruct Hin as [<-|Hin]; [discriminate Hrule|]).
  contradiction.
Qed.

(** The display name.  Every key of the name table is given its label.
    An identifier that passes the filter, is made of ASCII characters and
    is not a key is given a label of its own length in which no hyphen and
    no lower-case letter is left. *)
Theorem display_name_shape (modelId : string) :
  Forall (fun entry => formatModelName (fst entry) = snd entry) nameMap
  /\ (retention_rule modelId -> ascii_text modelId ->
      lookup nameMap modelId = None ->
      ~ In modelId Object_prototype_keys
      /\ String.length (formatModelName modelId) = String.length modelId
      /\ forall c, In c (chars (formatModelName modelId)) ->
                   c <> "-"%char /\ ~ lowercase c).
Proof.
  split; [repeat constructor|].
  intros Hrule Hascii Hnone.
  split; [now apply retained_not_inherited|].
  apply is_ascii_spec in Hascii.
  unfold formatModelName. rewrite Hnone.
  unfold Js.replace_hyphens, Js.toUpperCase. rewrite Hascii. split.
  - now rewrite !length_map_string.
  - intros c. rewrite !chars_map_string, List.map_map, in_map_iff.
    intros [c0 [<- _]]. apply upper_then_space.
Qed.

(** ** More on the catalog *)

Lemma filter_Permutation {A} (p : A -> bool) (l1 l2 : list A) :
  Permutation l1 l2 -> Permutation (List.filter p l1) (List.filter p l2).
Proof.
  induction 1 as [|a l1 l2 _ IH|a b l|l1 l2 l3 _ IH1 _ IH2]; simpl.
  - constructor.
  - destruct (p a); [now constructor | exact IH].
  - destruct (p a), (p b); try reflexivity. apply perm_swap.
  - now transitivity (List.filter p l2).
Qed.

Lemma Subsequence_length {A} (l1 l2 : list A) :
  Subsequence l1 l2 -> (length l1 <= length l2)%nat.
Proof. induction 1; simpl; lia. Qed.

Lemma Subsequence_In {A} (l1 l2 : list A) (a : A) :
  Subsequence l1 l2 -> In a l1 -> In a l2.
Proof.
  induction 1 as [|b l1 l2 _ IH|b l1 l2 _ IH]; simpl; [tauto | tauto |].
  intros [->|H]; [now left | right; now apply IH].
Qed.

Lemma Subsequence_NoDup {A} (l1 l2 : list A) :
  Subsequence l1 l2 -> NoDup l2 -> NoDup l1.
Proof.
  induction 1 as [|b l1 l2 Hs IH|b l1 l2 Hs IH]; intros Hnd.
  - constructor.
  - inversion Hnd; subst. now apply IH.
  - inversion Hnd as [|? ? Hnot Hrest]; subst. constructor; [|now apply IH].
    intros Hin. apply Hnot. exact (Subsequence_In _ _ _ Hs Hin).
Qed.

Lemma Subsequence_map {A B} (f : A -> B) (l1 l2 : list A) :
  Subsequence l1 l2 -> Subsequence (List.map f l1) (List.map f l2).
Proof. induction 1; simpl; now constructor. Qed.

Lemma catalog_ids (records : list OpenAIModel) :
  Permutation (List.map llm_id (processModels records))
              (List.map id (retained records)).
Proof.
  unfold processModels.
  rewrite (sort_Permutation comparePriority), List.map_map. reflexivity.
Qed.

(** A sorted list is what sorting it gives. *)
Lemma sort_of_sorted (catalog : list LLMModel) :
  StronglySorted rank_le catalog -> Js.sort comparePriority catalog = catalog.
Proof.
  intros Hs. symmetry.
  apply (sort_determined comparePriority rank comparePriority_rank);
    [exact Hs | reflexivity].
Qed.

Lemma sorted_Z_unique (l1 l2 : list Z) :
  StronglySorted Z.le l1 -> StronglySorted Z.le l2 -> Permutation l1 l2 ->
  l1 = l2.
Proof.
  intros H1. revert l2.
  induction H1 as [|a l1 Hs1 IH Ha]; intros l2 H2 Hp.
  - apply Permutation_nil in Hp. now subst.
  - destruct l2 as [|b l2]; [symmetry in Hp; now apply Permutation_nil in Hp|].
    inversion H2 as [|? ? Hs2 Hb]; subst.
    rewrite Forall_forall in Ha, Hb.
    assert (Hab : a = b).
    { assert (Ia : In a (b :: l2)) by (eapply Permutation_in; [exact Hp | now left]).
      assert (Ib : In b (a :: l1))
        by (eapply Permutation_in; [symmetry; exact Hp | now left]).
      destruct Ia as [->|Ia]; [reflexivity|].
      destruct Ib as [->|Ib]; [reflexivity|].
      specialize (Ha _ Ib). specialize (Hb _ Ia). lia. }
    subst b. f_equal. apply IH; [exact Hs2|].
    now apply Permutation_cons_inv in Hp.
Qed.

Lemma StronglySorted_map_rank (catalog : list LLMModel) :
  StronglySorted rank_le catalog -> StronglySorted Z.le (List.map rank catalog).
Proof.
  induction 1 as [|a l Hs IH Ha]; simpl; constructor; [exact IH|].
  rewrite Forall_forall in *. intros r Hr.
  apply in_map_iff in Hr. destruct Hr as [e [<- He]]. exact (Ha e He).
Qed.

(** The catalog holds the retained records, each once: its identifiers
    are those of the retained records, so it is never longer than the
    upstream list, and when the upstream identifiers are distinct so are
    those of the catalog. *)
Theorem catalog_keeps_identifiers (records : list OpenAIModel) :
  Permutation (List.map llm_id (processModels records))
              (List.map id (retained records))
  /\ (length (processModels records) <= length records)%nat
  /\ (NoDup (List.map id records) ->
      NoDup (List.map llm_id (processModels records))).
Proof.
  split; [apply catalog_ids|]. split.
  - rewrite <- (length_map llm_id), (Permutation_length (catalog_ids records)),
      length_map.
    apply Subsequence_length, filter_Subsequence.
  - intros Hnd.
    eapply Permutation_NoDup; [symmetry; apply catalog_ids|].
    eapply Subsequence_NoDup; [|exact Hnd].
    apply Subsequence_map, filter_Subsequence.
Qed.

(** Every entry of the catalog comes from an upstream record with the
    same identifier; that identifier obeys the retention rule, so it
    contains neither [instruct] nor [base]; and the other fields of the
    entry are the ones derived from the identifier. *)
Theorem catalog_entries_derived (records : list OpenAIModel) (entry : LLMModel) :
  In entry (processModels records) ->
  (exists model, In model records /\ id model = llm_id entry)
  /\ retention_rule (llm_id entry)
  /\ entry = {| llm_id := llm_id entry;
                name := formatModelName (llm_id entry);
                provider := "OpenAI";
                providerId := "openai";
                multiModal := isMultiModalModel (llm_id entry);
                isBeta := isBetaModel (llm_id entry) |}.
Proof.
  intros Hin.
  destruct (processModels_origin records entry Hin) as [model [Hm [Hvalid ->]]].
  split; [now exists model|]. split; [|reflexivity].
  now apply isValidModel_spec.
Qed.

(** Sorting the catalog once more changes nothing; and when the upstream
    already lists its retained records by ascending rank, the catalog lists
    them in the upstream order. *)
Theorem catalog_order_settled (records : list OpenAIModel) :
  Js.sort comparePriority (processModels records) = processModels records
  /\ (StronglySorted rank_le (List.map toLLMModel (retained records)) ->
      processModels records = List.map toLLMModel (retained records)).
Proof.
  split.
  - apply sort_of_sorted.
    exact (sort_sorted comparePriority rank comparePriority_rank _).
  - intros Hs. unfold processModels. now apply sort_of_sorted.
Qed.

(** The order in which the upstream lists its records only matters among
    records of equal rank: two upstream lists with the same records give
    catalogs with the same entries and the same sequence of ranks. *)
Theorem catalog_ranks_order_free (records1 records2 : list OpenAIModel) :
  Permutation records1 records2 ->
  Permutation (processModels records1) (processModels records2)
  /\ List.map rank (processModels records1) = List.map rank (processModels records2).
Proof.
  intros Hp.
  assert (Hc : Permutation (processModels records1) (processModels records2)).
  { unfold processModels, retained.
    rewrite !(sort_Permutation comparePriority).
    apply Permutation_map, filter_Permutation, Hp. }
  split; [exact Hc|].
  apply sorted_Z_unique.
  - apply StronglySorted_map_rank.
    exact (sort_sorted comparePriority rank comparePriority_rank _).
  - apply StronglySorted_map_rank.
    exact (sort_sorted comparePriority rank comparePriority_rank _).
  - now apply Permutation_map.
Qed.

(** ** More on the fetch and the cache *)

Lemma catalog_ok_nil : catalog_ok [].
Proof. split; constructor. Qed.

Lemma catalog_ok_processModels (records : list OpenAIModel) :
  catalog_ok (processModels records).
Proof.
  split.
  - exact (sort_sorted comparePriority rank comparePriority_rank _).
  - apply Forall_forall. intros entry Hin.
    destruct (processModels_origin records entry Hin) as [model [_ [Hv ->]]].
    now apply isValidModel_spec.
Qed.

Lemma catalog_ok_catalog_of (o : Outcome) : catalog_ok (catalog_of o).
Proof.
  unfold catalog_of. destruct (delivered o);
    [apply catalog_ok_processModels | apply catalog_ok_nil].
Qed.

Lemma ok_in_range (response : Response) :
  ok response = true <-> (200 <= status response <= 299)%nat.
Proof.
  unfold ok. rewrite andb_true_iff, !Nat.leb_le. tauto.
Qed.

Section MoreAdapterFacts.
Variable env : Env.
Variable upstream : nat -> string -> Outcome.

(** What [fetchOpenAIModels] does, in all cases at once. *)
Lemma fetch_cases (apiKey : option string) (h : Heap) :
  (exists key, resolve_key env apiKey = Some key /\ key <> EmptyString
               /\ fetchOpenAIModels env upstream apiKey h
                  = (inr (catalog_of (upstream (length (requests h))
                                               ("Bearer " ++ key))),
                     sent ("Bearer " ++ key) h))
  \/ (~ present (resolve_key env apiKey)
      /\ fetchOpenAIModels env upstream apiKey h = (inr [], h)).
Proof.
  destruct (Js.truthy (resolve_key env apiKey)) eqn:E.
  - apply truthy_present in E. destruct E as [key [Hk Hne]].
    left. exists key. repeat split; try assumption.
    now apply fetch_with_key.
  - apply truthy_absent in E. right. split; [exact E|].
    now apply fetch_without_key.
Qed.

Lemma fetch_result_ok (apiKey : option string) (h : Heap) :
  exists models h',
    fetchOpenAIModels env upstream apiKey h = (inr models, h')
    /\ catalog_ok models
    /\ cachedModels h' = cachedModels h.
Proof.
  destruct (fetch_cases apiKey h) as [[key [_ [_ H]]]|[_ H]]; rewrite H;
    eexists _, _; (split; [reflexivity|]); split; try reflexivity.
  - apply catalog_ok_catalog_of.
  - apply catalog_ok_nil.
Qed.

Lemma cached_result_ok (now : Z) (apiKey : option string) (h : Heap) :
  cache_ok h ->
  exists models h',
    getCachedOpenAIModels env upstream now apiKey h = (inr models, h')
    /\ catalog_ok models /\ cache_ok h'.
Proof.
  intros Hok.
  destruct (fetch_result_ok apiKey h) as [fetched [h1 [Hf [Hfok _]]]].
  assert (Hrefresh :
            (models <- fetchOpenAIModels env upstream apiKey ;;
             update_cache models now ;;; ret models)%js h
            = (inr fetched, snapshot fetched now h1))
    by (unfold bind; now rewrite Hf).
  assert (Hsnap : cache_ok (snapshot fetched now h1))
    by (intros models [= <-]; exact Hfok).
  unfold getCachedOpenAIModels. cbv zeta.
  destruct (cachedModels h) as [cached|] eqn:Hc.
  - destruct (now - cacheTimestamp h <? CACHE_DURATION).
    + exists cached, h. split; [reflexivity|]. split; [now apply Hok | exact Hok].
    + rewrite Hrefresh. now exists fetched, (snapshot fetched now h1).
  - rewrite Hrefresh. now exists fetched, (snapshot fetched now h1).
Qed.

Lemma step_cache_ok (call : Call) (h : Heap) :
  cache_ok h -> cache_ok (step env upstream call h).
Proof.
  intros Hok. destruct call as [apiKey|now apiKey|]; simpl.
  - destruct (fetch_result_ok apiKey h) as [models [h' [Hf [_ Hc]]]].
    rewrite Hf. simpl. intros cached Hcached. apply Hok. congruence.
  - destruct (cached_result_ok now apiKey h Hok) as [models [h' [Hg [_ Hc]]]].
    now rewrite Hg.
  - intros models Hm. discriminate.
Qed.

Lemma run_cache_ok (calls : list Call) (h : Heap) :
  cache_ok h -> cache_ok (run env upstream calls h).
Proof.
  revert h. induction calls as [|call calls IH]; intros h Hok; [exact Hok|].
  simpl. apply IH. now apply step_cache_ok.
Qed.

End MoreAdapterFacts.

Section AdapterExtras.
Variable env : Env.
Variable upstream : nat -> string -> Outcome.

(** A 2xx response: when its body arrives whole and parses,
    [fetchOpenAIModels] returns the catalog made of its records; when the
    body is cut short or does not parse, it returns the empty list.  In
    both cases exactly one request has gone out. *)
Theorem success_response_processed
  (apiKey : option string) (key : string) (h : Heap) (response : Response) :
  resolve_key env apiKey = Some key -> key <> EmptyString ->
  upstream (length (requests h)) ("Bearer " ++ key) = Resolves response ->
  (200 <= status response <= 299)%nat ->
  fetchOpenAIModels env upstream apiKey h
  = (inr match body response with
         | Received _ (inr value) => processModels (data value)
         | _ => []
         end,
     sent ("Bearer " ++ key) h).
Proof.
  intros Hk Hne Hup Hcode. apply ok_in_range in Hcode.
  rewrite (fetch_with_key env upstream apiKey key h Hk Hne).
  unfold catalog_of, delivered. rewrite Hup, Hcode.
  destruct (body response) as [e|bodyText [e|value]]; reflexivity.
Qed.

(** The credential that goes out is the first non-empty one of the
    argument, [NEXT_PUBLIC_OPENAI_API_KEY] and [OPENAI_API_KEY]; an empty
    argument counts as none. *)
Theorem credential_precedence (apiKey : option string) (h : Heap) :
  let sends (credential : option string) : Prop :=
    exists key, credential = Some key
                /\ requests (snd (fetchOpenAIModels env upstream apiKey h))
                   = (requests h ++ [("Bearer " ++ key)%string])%list in
  (present apiKey -> sends apiKey)
  /\ (~ present apiKey -> present (NEXT_PUBLIC_OPENAI_API_KEY env) ->
      sends (NEXT_PUBLIC_OPENAI_API_KEY env))
  /\ (~ present apiKey -> ~ present (NEXT_PUBLIC_OPENAI_API_KEY env) ->
      present (OPENAI_API_KEY env) -> sends (OPENAI_API_KEY env)).
Proof.
  intros sends.
  assert (Hsend : forall credential key,
             credential = Some key -> key <> EmptyString ->
             resolve_key env apiKey = credential -> sends credential).
  { intros credential key -> Hne Hk. exists key. split; [reflexivity|].
    now rewrite (fetch_with_key env upstream apiKey key h Hk Hne). }
  unfold resolve_key, Js.or_else in Hsend.
  split; [|split].
  - intros Hp. destruct Hp as [key [Hk Hne]].
    apply (Hsend _ key Hk Hne).
    assert (Ht : Js.truthy apiKey = true)
      by (apply truthy_present; now exists key).
    now rewrite Ht, Ht.
  - intros Ha Hp. apply truthy_absent in Ha.
    destruct Hp as [key [Hk Hne]]. apply (Hsend _ key Hk Hne).
    assert (Ht : Js.truthy (NEXT_PUBLIC_OPENAI_API_KEY env) = true)
      by (apply truthy_present; now exists key).
    now rewrite Ha, Ht.
  - intros Ha Hn Hp. apply truthy_absent in Ha, Hn.
    destruct Hp as [key [Hk Hne]]. apply (Hsend _ key Hk Hne).
    now rewrite Ha, Hn.
Qed.

(** [fetchOpenAIModels] has nothing to do with the cache: it leaves both
    cache variables as they are, what it returns does not depend on them,
    and it sends at most one request. *)
Theorem fetch_bypasses_cache (apiKey : option string) (h : Heap) :
  let h' := snd (fetchOpenAIModels env upstream apiKey h) in
  cachedModels h' = cachedModels h
  /\ cacheTimestamp h' = cacheTimestamp h
  /\ (requests h' = requests h
      \/ exists authorization,
           requests h' = (requests h ++ [authorization])%list)
  /\ forall cached timestamp,
       fst (fetchOpenAIModels env upstream apiKey
              {| cachedModels := cached; cacheTimestamp := timestamp;
                 requests := requests h |})
       = fst (fetchOpenAIModels env upstream apiKey h).
Proof.
  intros h'. subst h'.
  split; [|split; [|split]].
  - destruct (fetch_cases env upstream apiKey h) as [[key [_ [_ H]]]|[_ H]];
      now rewrite H.
  - destruct (fetch_cases env upstream apiKey h) as [[key [_ [_ H]]]|[_ H]];
      now rewrite H.
  - destruct (fetch_cases env upstream apiKey h) as [[key [_ [_ H]]]|[_ H]];
      rewrite H; [right; now eexists | now left].
  - intros cached timestamp.
    destruct (fetch_cases env upstream apiKey h) as [[key [Hk [Hne H]]]|[Hno H]];
      rewrite H.
    + now rewrite (fetch_with_key env upstream apiKey key _ Hk Hne).
    + now rewrite (fetch_without_key env upstream apiKey _ Hno).
Qed.

(** A snapshot that is 300000 ms old or older is not served, and is not
    kept as a fallback either: the call sends a request and puts what it
    yields, be it the empty list of a failure, in the snapshot's place. *)
Theorem expired_snapshot_replaced
  (now : Z) (apiKey : option string) (key : string) (h : Heap)
  (old : list LLMModel) :
  cachedModels h = Some old -> 300000 <= now - cacheTimestamp h ->
  resolve_key env apiKey = Some key -> key <> EmptyString ->
  let fetched := catalog_of (upstream (length (requests h)) ("Bearer " ++ key)) in
  getCachedOpenAIModels env upstream now apiKey h
  = (inr fetched, snapshot fetched now (sent ("Bearer " ++ key) h)).
Proof.
  intros Hc Hage Hk Hne fetched.
  apply cached_miss.
  - intros [_ Hlt]. lia.
  - now apply fetch_with_key.
Qed.

(** Whatever series of calls of the three operations has gone before,
    [getCachedOpenAIModels] returns a list in ascending order of rank whose
    identifiers all obey the retention rule, whether it comes from the
    cache or from the upstream. *)
Theorem session_serves_catalogs
  (calls : list Call) (now : Z) (apiKey : option string) :
  exists models h',
    getCachedOpenAIModels env upstream now apiKey
      (run env upstream calls initial_heap) = (inr models, h')
    /\ catalog_ok models.
Proof.
  assert (Hok : cache_ok (run env upstream calls initial_heap)).
  { apply run_cache_ok. intros models Hm. discriminate. }
  destruct (cached_result_ok env upstream now apiKey _ Hok)
    as [models [h' [Hg [Hm _]]]].
  now exists models, h'.
Qed.

(** ** The route handlers *)

(** [GET] always answers 200 with [success: true], the list that
    [fetchOpenAIModels] returned and its length; an empty [apiKey]
    parameter counts as none.  When the request to the upstream fails the
    answer is still 200, with no models and count 0. *)
Theorem GET_always_succeeds (apiKey : option string) (timestamp : string) (h : Heap) :
  exists models h',
    fetchOpenAIModels env upstream (if Js.truthy apiKey then apiKey else None) h
    = (inr models, h')
    /\ GET env upstream apiKey timestamp h
       = (inr {| http_status := 200;
                 json_body := ModelsJson true models (length models) timestamp |},
          h')
    /\ (forall key,
          resolve_key env (if Js.truthy apiKey then apiKey else None) = Some key ->
          key <> EmptyString ->
          delivered (upstream (length (requests h)) ("Bearer " ++ key)) = None ->
          models = [] /\ length models = 0%nat).
Proof.
  fold (Js.or_else apiKey None).
  destruct (fetch_returns env upstream (Js.or_else apiKey None) h)
    as [models [h' [Hf _]]].
  exists models, h'. split; [exact Hf|]. split.
  - unfold GET, try_catch, bind. now rewrite Hf.
  - intros key Hk Hne Hfail.
    rewrite (fetch_with_key env upstream _ key h Hk Hne) in Hf.
    assert (Hm : models = catalog_of (upstream (length (requests h)) ("Bearer " ++ key)))
      by congruence.
    unfold catalog_of in Hm. rewrite Hfail in Hm. now subst models.
Qed.

(** [POST] answers a request it cannot use without contacting the
    upstream: 500 when the body cannot be read, and 400 when the body
    carries no [apiKey] or an empty one, also when the environment holds
    a credential. *)
Theorem POST_rejects_without_request (timestamp : string) (h : Heap) :
  (forall e,
      POST env upstream (Unreadable e) timestamp h
      = (inr {| http_status := 500;
                json_body := ErrorJson false "Failed to fetch OpenAI models"
                                       (Some (message e)) |}, h))
  /\ (forall apiKey,
        ~ present apiKey ->
        POST env upstream (Readable apiKey) timestamp h
        = (inr {| http_status := 400;
                  json_body := ErrorJson false "API key is required" None |}, h)).
Proof.
  split; [reflexivity|].
  intros apiKey Hno. apply truthy_absent in Hno.
  unfold POST, try_catch. now rewrite Hno.
Qed.

(** [POST] with a non-empty [apiKey] sends one request that carries this
    key, whatever the environment holds, and answers 200 with what came of
    it: the catalog, or no models when the request failed. *)
Theorem POST_uses_body_key (key : string) (timestamp : string) (h : Heap) :
  key <> EmptyString ->
  let fetched := catalog_of (upstream (length (requests h)) ("Bearer " ++ key)) in
  POST env upstream (Readable (Some key)) timestamp h
  = (inr {| http_status := 200;
            json_body := ModelsJson true fetched (length fetched) timestamp |},
     sent ("Bearer " ++ key) h).
Proof.
  intros Hne fetched.
  assert (Ht : Js.truthy (Some key) = true)
    by (apply truthy_present; now exists key).
  assert (Hk : resolve_key env (Some key) = Some key)
    by (unfold resolve_key, Js.or_else; now rewrite Ht, Ht).
  unfold POST, try_catch, bind. rewrite Ht. cbn [negb].
  now rewrite (fetch_with_key env upstream (Some key) key h Hk Hne).
Qed.

End AdapterExtras.

(** ** The browser client singleton *)

Lemma whitespace_In (t : string) : whitespace t = true <-> In t white_space.
Proof.
  unfold whitespace. rewrite existsb_exists. split.
  - intros [t' [Hin Heq]]. apply String.eqb_eq in Heq. now subst.
  - intros Hin. exists t. split; [exact Hin | apply String.eqb_refl].
Qed.

(** How [all_white] and [trimStart] go over a string: a character of
    white space of one, two or three bytes in front, or none. *)
Lemma front_cases (s : string) :
  s = EmptyString
  \/ (exists a s1, s = String a s1 /\ whitespace (String a EmptyString) = true
                   /\ all_white s = all_white s1 /\ trimStart s = trimStart s1)
  \/ (exists a b s2, s = String a (String b s2)
                     /\ whitespace (String a (String b EmptyString)) = true
                     /\ all_white s = all_white s2 /\ trimStart s = trimStart s2)
  \/ (exists a b c s3, s = String a (String b (String c s3))
                       /\ whitespace (String a (String b (String c EmptyString))) = true
                       /\ all_white s = all_white s3 /\ trimStart s = trimStart s3)
  \/ (s <> EmptyString /\ all_white s = false /\ trimStart s = s).
Proof.
  destruct s as [|a s1]; [now left|]. right.
  cbn [all_white trimStart].
  destruct (whitespace (String a EmptyString)) eqn:E1.
  { left. now exists a, s1. }
  right. destruct s1 as [|b s2].
  { right. right. repeat split. discriminate. }
  destruct (whitespace (String a (String b EmptyString))) eqn:E2.
  { left. now exists a, b, s2. }
  right. destruct s2 as [|c s3].
  { right. repeat split. discriminate. }
  destruct (whitespace (String a (String b (String c EmptyString)))) eqn:E3.
  { left. now exists a, b, c, s3. }
  right. repeat split. discriminate.
Qed.

Lemma all_white_White_upto (n : nat) (s : string) :
  (String.length s <= n)%nat -> all_white s = true -> White s.
Proof.
  revert s. induction n as [|n IH]; intros s Hlen Hw.
  - destruct s; [constructor | simpl in Hlen; lia].
  - destruct (front_cases s)
      as [->|[[a [s1 [-> [Ht [Ha _]]]]]
         |[[a [b [s2 [-> [Ht [Ha _]]]]]]
         |[[a [b [c [s3 [-> [Ht [Ha _]]]]]]]|[_ [Hf _]]]]]];
      [constructor| | | |congruence];
      rewrite Ha in Hw; apply whitespace_In in Ht; simpl in Hlen.
    + apply (White_more (String a EmptyString) s1 Ht). apply IH; [lia | exact Hw].
    + apply (White_more (String a (String b EmptyString)) s2 Ht).
      apply IH; [lia | exact Hw].
    + apply (White_more (String a (String b (String c EmptyString))) s3 Ht).
      apply IH; [lia | exact Hw].
Qed.

Lemma all_white_token (t s : string) :
  In t white_space -> all_white (t ++ s) = all_white s.
Proof.
  intros Hin. simpl in Hin.
  repeat (destruct Hin as [<-|Hin]; [reflexivity|]).
  contradiction.
Qed.

(** [all_white] says what it is meant to say. *)
Lemma all_white_spec (s : string) : all_white s = true <-> White s.
Proof.
  split.
  - apply (all_white_White_upto (String.length s)). lia.
  - induction 1 as [|t s Hin _ IH]; [reflexivity|].
    now rewrite all_white_token.
Qed.

Lemma trimStart_white_upto (n : nat) (s : string) :
  (String.length s <= n)%nat -> all_white (trimStart s) = all_white s.
Proof.
  revert s. induction n as [|n IH]; intros s Hlen.
  - destruct s; [reflexivity | simpl in Hlen; lia].
  - destruct (front_cases s)
      as [->|[[a [s1 [-> [_ [Ha Hs]]]]]
         |[[a [b [s2 [-> [_ [Ha Hs]]]]]]
         |[[a [b [c [s3 [-> [_ [Ha Hs]]]]]]]|[_ [_ Hs]]]]]];
      [reflexivity| | | |now rewrite Hs];
      rewrite Ha, Hs; simpl in Hlen; apply IH; lia.
Qed.

Lemma trimEnd_empty (s : string) :
  trimEnd s = EmptyString <-> all_white s = true.
Proof.
  destruct s as [|c s']; [now split|].
  cbn [trimEnd]. destruct (all_white (String c s')); split;
    (reflexivity || discriminate).
Qed.

(** [s.trim() === ''] says that [s] is white space throughout. *)
Lemma trim_empty (s : string) :
  String.eqb (trim s) EmptyString = true <-> White s.
Proof.
  rewrite String.eqb_eq. unfold trim.
  rewrite trimEnd_empty, (trimStart_white_upto (String.length s) s (le_n _)).
  apply all_white_spec.
Qed.

Lemma truthy_false_blank (v : option string) :
  Js.truthy v = false -> blank v.
Proof.
  destruct v as [s|]; simpl; [|trivial].
  rewrite negb_false_iff, String.eqb_eq. intros ->. constructor.
Qed.

(** The test of the configuration: it fails exactly when the URL or the
    key is blank. *)
Lemma config_test (supabaseUrl supabaseAnonKey : option string) :
  (negb (Js.truthy supabaseUrl) || negb (Js.truthy supabaseAnonKey)
   || String.eqb (trim (Js.template supabaseUrl)) EmptyString
   || String.eqb (trim (Js.template supabaseAnonKey)) EmptyString)%bool = true
  <-> blank supabaseUrl \/ blank supabaseAnonKey.
Proof.
  rewrite !orb_true_iff, !negb_true_iff, !trim_empty. split.
  - intros [[[H|H]|H]|H].
    + left. now apply truthy_false_blank.
    + right. now apply truthy_false_blank.
    + destruct supabaseUrl as [s|]; [left; exact H | left; exact I].
    + destruct supabaseAnonKey as [s|]; [right; exact H | right; exact I].
  - intros [H|H].
    + destruct supabaseUrl as [s|]; [left; right; exact H | now do 3 left].
    + destruct supabaseAnonKey as [s|]; [right; exact H | left; left; now right].
Qed.

Section SupabaseFacts.
Variable Client : Type.
Variable createBrowserClient : string -> string -> Error + Client.
Variable URL_parses : string -> bool.

Lemma unconfigured_cases (e : SupabaseEnv) (reason : string) (held : option Client) :
  (in_development e -> unconfigured e reason held = (inr None, held))
  /\ (~ in_development e -> unconfigured e reason held = (inl (new_Error reason), held)).
Proof.
  unfold unconfigured, in_development. destruct (NODE_ENV e) as [mode|].
  - destruct (String.eqb_spec mode "development") as [->|Hne]; split;
      intros H; congruence.
  - split; intros H; [discriminate | reflexivity].
Qed.

(** Once a client is held it is held for good: whatever the surroundings
    of the later calls, each returns that client in a browser and [null]
    on the server, none throws, and the client stays the same. *)
Theorem client_kept (es : list SupabaseEnv) (client : Client) :
  supabase_calls createBrowserClient URL_parses es (Some client)
  = (List.map (fun e => inr (if window_defined e then Some client else None)) es,
     Some client).
Proof.
  induction es as [|e es IH]; [reflexivity|].
  cbn [supabase_calls List.map]. unfold createSupabaseBrowserClient.
  destruct (window_defined e); cbn [negb]; now rewrite IH.
Qed.

(** A call changes the module variable only by creating a client, and it
    creates one only in a browser, when none is held, from a URL and a key
    that are both not blank, the URL being one that parses; a call that
    returns [null] or throws leaves the variable as it was. *)
Theorem client_only_from_good_config
  (e : SupabaseEnv) (held held' : option Client) (result : Error + option Client) :
  createSupabaseBrowserClient createBrowserClient URL_parses e held
  = (result, held') ->
  held' = held
  \/ exists client url key,
       held = None /\ held' = Some client /\ result = inr (Some client)
       /\ window_defined e = true
       /\ NEXT_PUBLIC_SUPABASE_URL e = Some url
       /\ NEXT_PUBLIC_SUPABASE_ANON_KEY e = Some key
       /\ ~ blank (Some url) /\ ~ blank (Some key)
       /\ URL_parses url = true
       /\ createBrowserClient url key = inr client.
Proof.
  unfold createSupabaseBrowserClient.
  destruct (window_defined e) eqn:Hw; cbn [negb]; [|intros [= _ <-]; now left].
  destruct held as [client|]; [intros [= _ <-]; now left|].
  cbv zeta.
  destruct (negb (Js.truthy (NEXT_PUBLIC_SUPABASE_URL e))
            || negb (Js.truthy (NEXT_PUBLIC_SUPABASE_ANON_KEY e))
            || String.eqb (trim (Js.template (NEXT_PUBLIC_SUPABASE_URL e))) EmptyString
            || String.eqb (trim (Js.template (NEXT_PUBLIC_SUPABASE_ANON_KEY e)))
                 EmptyString)%bool eqn:Htest.
  { intros H. left.
    destruct (NODE_ENV e) as [mode|] eqn:Hmode; unfold unconfigured in H;
      rewrite Hmode in H; [destruct (String.eqb mode "development")|];
      now injection H as _ <-. }
  assert (Hgood : ~ (blank (NEXT_PUBLIC_SUPABASE_URL e)
                     \/ blank (NEXT_PUBLIC_SUPABASE_ANON_KEY e))).
  { rewrite <- config_test, Htest. discriminate. }
  destruct (NEXT_PUBLIC_SUPABASE_URL e) as [url|] eqn:Hurl;
    [|exfalso; apply Hgood; left; exact I].
  destruct (NEXT_PUBLIC_SUPABASE_ANON_KEY e) as [key|] eqn:Hkey;
    [|exfalso; apply Hgood; right; exact I].
  cbn [Js.template].
  destruct (URL_parses url) eqn:Hparse; cbn [negb].
  - destruct (createBrowserClient url key) as [error|client] eqn:Hcreate.
    + intros [= _ <-]. now left.
    + intros [= <- <-]. right. exists client, url, key.
      repeat split; tauto.
  - intros H. left.
    destruct (NODE_ENV e) as [mode|] eqn:Hmode; unfold unconfigured in H;
      rewrite Hmode in H; [destruct (String.eqb mode "development")|];
      now injection H as _ <-.
Qed.

(** In a browser with no client held yet, a configuration that is no good
    makes the call return [null] in development and throw everywhere
    else, and no client is created: "Supabase URL and Anon Key are
    required" when the URL or the key is blank, "Invalid Supabase URL
    format" when both are there and the URL does not parse. *)
Theorem bad_config_refused (e : SupabaseEnv) :
  window_defined e = true ->
  let call := createSupabaseBrowserClient createBrowserClient URL_parses
                e None in
  let refuses (reason : string) : Prop :=
    (in_development e -> call = (inr None, None))
    /\ (~ in_development e -> call = (inl (new_Error reason), None)) in
  (blank (NEXT_PUBLIC_SUPABASE_URL e) \/ blank (NEXT_PUBLIC_SUPABASE_ANON_KEY e) ->
   refuses "Supabase URL and Anon Key are required")
  /\ (forall url,
        NEXT_PUBLIC_SUPABASE_URL e = Some url ->
        ~ blank (Some url) -> ~ blank (NEXT_PUBLIC_SUPABASE_ANON_KEY e) ->
        URL_parses url = false ->
        refuses "Invalid Supabase URL format").
Proof.
  intros Hw call refuses. subst call refuses.
  unfold createSupabaseBrowserClient. rewrite Hw. cbn [negb]. cbv zeta.
  split.
  - intros Hblank. apply config_test in Hblank. rewrite Hblank.
    apply unconfigured_cases.
  - intros url Hurl Hu Hk Hparse.
    destruct (negb (Js.truthy (NEXT_PUBLIC_SUPABASE_URL e))
              || negb (Js.truthy (NEXT_PUBLIC_SUPABASE_ANON_KEY e))
              || String.eqb (trim (Js.template (NEXT_PUBLIC_SUPABASE_URL e)))
                   EmptyString
              || String.eqb (trim (Js.template (NEXT_PUBLIC_SUPABASE_ANON_KEY e)))
                   EmptyString)%bool eqn:Htest.
    { apply config_test in Htest. rewrite Hurl in Htest. tauto. }
    rewrite Hurl. cbn [Js.template]. rewrite Hparse. cbn [negb].
    apply unconfigured_cases.
Qed.

End SupabaseFacts.

End Properties.

(** ** The theorems at work on sample surroundings

    The runs below are on ASCII text, where the case mapping of the engine
    beyond ASCII plays no part; they are computed with [sample_engine]. *)

Existing Instance sample_engine.

Lemma absent_None : ~ present None.
Proof. intros [s [H _]]; discriminate. Qed.

(** C2, as stated, fails: [o1-preview] contains the ranked key [o1], so its
    rank is 4 and not 999, and it is listed before a ranked entry such as
    [gpt-4o]. *)
Lemma o1_preview_is_ranked :
  getModelPriority "o1-preview" <> 999
  /\ List.map llm_id (processModels [record "gpt-4o"; record "o1-preview"])
     = ["o1-preview"; "gpt-4o"].
Proof. split; [discriminate | reflexivity]. Qed.

Lemma o1_preview_enrichment_witness :
  let records := [record "gpt-3.5-turbo"; record "o1-preview"; record "gpt-5"] in
  let entry := toLLMModel (record "o1-preview") in
  isBeta entry = true /\ rank entry = 4
  /\ Forall (fun e => rank e <= 4) [toLLMModel (record "gpt-5")]
  /\ Forall (fun e => 4 <= rank e) [toLLMModel (record "gpt-3.5-turbo")].
Proof.
  intros records entry.
  apply (o1_preview_enrichment records
           [toLLMModel (record "gpt-5")] [toLLMModel (record "gpt-3.5-turbo")] entry);
    reflexivity.
Defined.

Lemma filter_retention_witness :
  let records := [record "gpt-4o"; record "gpt-3.5-turbo-instruct";
                  record "chatgpt-4o-latest"; record "babbage-002"] in
  ~ In (record "gpt-3.5-turbo-instruct") (retained records)
  /\ In (record "chatgpt-4o-latest") (retained records).
Proof.
  intros records.
  destruct (filter_retention records) as [_ [Hin [Hbad _]]]. split.
  - apply Hbad. left. exists "gpt-3.5-turbo-", EmptyString. reflexivity.
  - apply Hin. split; [simpl; tauto|].
    split; [right; right; right; simpl; tauto|].
    split; apply includes_false; reflexivity.
Defined.

Lemma catalog_sorted_stable_witness :
  let records := [record "o3-mini"; record "gpt-4"; record "o3"; record "gpt-4o"] in
  List.map llm_id (of_rank 999 (processModels records)) = ["o3-mini"; "o3"]
  /\ getModelPriority "o3-mini" = 999
  /\ getModelPriority "gpt-4-turbo-preview" = 8.
Proof.
  intros records.
  destruct (catalog_sorted_stable records "o3-mini")
    as [_ [_ [Hstable [_ [_ [_ Hnone]]]]]].
  destruct (catalog_sorted_stable records "gpt-4-turbo-preview")
    as [_ [_ [_ [_ [_ [Hfirst _]]]]]].
  split; [|split].
  - rewrite Hstable. reflexivity.
  - apply Hnone. intros key Hkey. apply includes_false.
    simpl in Hkey. repeat (destruct Hkey as [<-|Hkey]; [reflexivity|]).
    contradiction.
  - apply (Hfirst (firstn 7 priorities) "gpt-4-turbo" 8 (skipn 8 priorities)).
    + reflexivity.
    + apply includes_spec. reflexivity.
    + intros k Hk. apply includes_false.
      simpl in Hk. repeat (destruct Hk as [<-|Hk]; [reflexivity|]).
      contradiction.
Defined.

Lemma no_credential_no_request_witness :
  ~ present None
  /\ ~ present (NEXT_PUBLIC_OPENAI_API_KEY env_without_key)
  /\ ~ present (OPENAI_API_KEY env_without_key)
  /\ fetchOpenAIModels_try env_without_key upstream_listing None heap_cached_at_1000
     = (inr [], heap_cached_at_1000)
  /\ fetchOpenAIModels env_without_key upstream_listing None heap_cached_at_1000
     = (inr [], heap_cached_at_1000).
Proof.
  repeat (split; [exact absent_None|]).
  apply (no_credential_no_request env_without_key upstream_listing None
           heap_cached_at_1000); exact absent_None.
Defined.

(** C7, as stated, fails: when the body of a 502 response cannot be read,
    what the [try] block throws is the error of the failed read, which
    carries neither the status code nor the status text. *)
Lemma unreadable_error_body :
  fst (fetchOpenAIModels_try env_with_key
         (fun _ _ => Resolves {| status := 502; statusText := "Bad Gateway";
                                 body := Truncated (new_Error "connection lost") |})
         None initial_heap)
  = inl (new_Error "connection lost")
  /\ new_Error "connection lost" <> new_Error "OpenAI API error: 502 Bad Gateway".
Proof. split; [reflexivity | discriminate]. Qed.

Lemma upstream_errors_become_empty_witness :
  fst (fetchOpenAIModels_try env_with_key upstream_unauthorized None initial_heap)
  = inl (new_Error "OpenAI API error: 401 Unauthorized")
  /\ fst (fetchOpenAIModels env_with_key upstream_unauthorized None initial_heap)
     = inr [].
Proof.
  destruct (upstream_errors_become_empty env_with_key upstream_unauthorized)
    as [Hthrows _].
  apply (Hthrows None "sk-test" initial_heap
           {| status := 401; statusText := "Unauthorized";
              body := Received "{...}" (inl (new_Error "not parsed")) |});
    [reflexivity | discriminate | simpl; lia | reflexivity].
Defined.

Lemma cache_serves_within_ttl_witness :
  getCachedOpenAIModels env_with_key upstream_listing 200000 None heap_cached_at_1000
  = (inr [toLLMModel (record "gpt-4o")], heap_cached_at_1000)
  /\ exists models h1,
       getCachedOpenAIModels env_with_key upstream_listing 1000 None initial_heap
       = (inr models, h1)
       /\ getCachedOpenAIModels env_with_key upstream_listing 5000 None h1
          = (inr models, h1)
       /\ length (requests h1) = S (length (requests initial_heap)).
Proof.
  destruct (cache_serves_within_ttl env_with_key upstream_listing) as [Hhit Htwo].
  split.
  - apply Hhit; [reflexivity | simpl; lia].
  - apply Htwo.
    + intros [Hsome _]. now apply Hsome.
    + exists "sk-test". split; [reflexivity | discriminate].
    + lia.
Defined.

Lemma miss_caches_whatever_returns_witness :
  ~ fresh initial_heap 5000
  /\ getCachedOpenAIModels env_with_key upstream_unauthorized 5000 None initial_heap
     = (inr [], snapshot [] 5000 (sent "Bearer sk-test" initial_heap))
  /\ getCachedOpenAIModels env_with_key upstream_unauthorized 304999 None
       (snapshot [] 5000 (sent "Bearer sk-test" initial_heap))
     = (inr [], snapshot [] 5000 (sent "Bearer sk-test" initial_heap)).
Proof.
  assert (Hmiss : ~ fresh initial_heap 5000)
    by (intros [Hsome _]; now apply Hsome).
  split; [exact Hmiss|].
  destruct (miss_caches_whatever_returns env_with_key upstream_unauthorized
              5000 None initial_heap Hmiss)
    as [models [h1 [Hf [Hget [_ [_ [Hfail Hserve]]]]]]].
  assert (Hm : models = [])
    by (apply (Hfail "sk-test"); [reflexivity | discriminate | reflexivity]).
  assert (Hh : h1 = sent "Bearer sk-test" initial_heap)
    by (subst models; vm_compute in Hf; injection Hf as <-; reflexivity).
  subst models h1. split; [exact Hget|].
  apply Hserve; [reflexivity | lia].
Defined.

(** C9, as stated, fails: with no credential anywhere, the call that
    follows [clearOpenAIModelsCache] sends nothing upstream; it returns and
    caches the empty list. *)
Lemma clear_then_refresh_without_credential :
  getCachedOpenAIModels env_without_key upstream_listing 2000 None
    (snd (clearOpenAIModelsCache heap_cached_at_1000))
  = (inr [], {| cachedModels := Some [];
                cacheTimestamp := 2000;
                requests := requests heap_cached_at_1000 |}).
Proof. reflexivity. Qed.

Lemma clear_forces_refresh_witness :
  let cleared := snd (clearOpenAIModelsCache heap_cached_at_1000) in
  cachedModels cleared = None
  /\ cacheTimestamp cleared = 0
  /\ exists models h1,
       getCachedOpenAIModels env_with_key upstream_listing 2000 None cleared
       = (inr models, snapshot models 2000 h1)
       /\ requests h1 = ["Bearer sk-test"; "Bearer sk-test"].
Proof.
  intros cleared.
  destruct (clear_forces_refresh env_with_key upstream_listing 2000 None
              heap_cached_at_1000)
    as [_ [Hnull [Hzero [_ [models [h1 [_ [Hget [Hsent _]]]]]]]]].
  split; [exact Hnull|]. split; [exact Hzero|].
  exists models, h1. split; [exact Hget|].
  apply (Hsent "sk-test"); [reflexivity | discriminate].
Defined.

Lemma beta_is_multimodal_witness :
  isBetaModel "o1-preview-2024-09-12" = true
  /\ isMultiModalModel "o1-preview-2024-09-12" = true.
Proof.
  split; [reflexivity | apply beta_is_multimodal; reflexivity].
Defined.

Lemma display_name_shape_witness :
  retention_rule "gpt-4.1-nano" /\ ascii_text "gpt-4.1-nano"
  /\ lookup nameMap "gpt-4.1-nano" = None
  /\ String.length (formatModelName "gpt-4.1-nano") = String.length "gpt-4.1-nano"
  /\ ("G"%char <> "-"%char /\ ~ lowercase "G"%char).
Proof.
  assert (Hrule : retention_rule "gpt-4.1-nano")
    by (apply (isValidModel_spec (record "gpt-4.1-nano")); reflexivity).
  assert (Hascii : ascii_text "gpt-4.1-nano")
    by (apply is_ascii_spec; reflexivity).
  split; [exact Hrule|]. split; [exact Hascii|]. split; [reflexivity|].
  destruct (display_name_shape "gpt-4.1-nano") as [_ H].
  destruct (H Hrule Hascii eq_refl) as [_ [Hlen Hchars]].
  split; [exact Hlen|]. apply Hchars. simpl. tauto.
Defined.

Lemma catalog_keeps_identifiers_witness :
  let records := [record "o3"; record "gpt-4o"; record "whisper-1"] in
  NoDup (List.map id records)
  /\ NoDup (List.map llm_id (processModels records)).
Proof.
  intros records.
  assert (Hnd : NoDup (List.map id records)).
  { repeat constructor; simpl; intuition discriminate. }
  split; [exact Hnd|].
  destruct (catalog_keeps_identifiers records) as [_ [_ H]]. exact (H Hnd).
Defined.

Lemma catalog_entries_derived_witness :
  let records := [record "text-davinci-003"; record "gpt-4-turbo"] in
  In (toLLMModel (record "gpt-4-turbo")) (processModels records)
  /\ retention_rule "gpt-4-turbo".
Proof.
  intros records.
  assert (Hin : In (toLLMModel (record "gpt-4-turbo")) (processModels records))
    by (simpl; tauto).
  split; [exact Hin|].
  destruct (catalog_entries_derived records _ Hin) as [_ [H _]]. exact H.
Defined.

Lemma catalog_order_settled_witness :
  let records := [record "gpt-5"; record "babbage-002"; record "gpt-4o";
                  record "gpt-4o-mini"; record "o3-mini"] in
  StronglySorted rank_le (List.map toLLMModel (retained records))
  /\ processModels records = List.map toLLMModel (retained records).
Proof.
  intros records.
  assert (Hs : StronglySorted rank_le (List.map toLLMModel (retained records))).
  { repeat constructor; unfold rank_le; vm_compute; discriminate. }
  split; [exact Hs|].
  destruct (catalog_order_settled records) as [_ H]. exact (H Hs).
Defined.

Lemma catalog_ranks_order_free_witness :
  let records1 := [record "gpt-4"; record "o1"; record "gpt-5"] in
  let records2 := [record "gpt-5"; record "gpt-4"; record "o1"] in
  Permutation records1 records2
  /\ List.map rank (processModels records1) = List.map rank (processModels records2).
Proof.
  intros records1 records2.
  assert (Hp : Permutation records1 records2).
  { unfold records1, records2.
    eapply perm_trans; [apply perm_skip, perm_swap | apply perm_swap]. }
  split; [exact Hp|].
  destruct (catalog_ranks_order_free records1 records2 Hp) as [_ H]. exact H.
Defined.

Lemma success_response_processed_witness :
  fetchOpenAIModels env_with_key upstream_listing None initial_heap
  = (inr [toLLMModel (record "o1-preview"); toLLMModel (record "gpt-4o")],
     sent "Bearer sk-test" initial_heap).
Proof.
  apply (success_response_processed env_with_key upstream_listing None "sk-test"
           initial_heap
           {| status := 200; statusText := "OK";
              body := Received "{...}"
                        (inr {| resp_object := "list";
                                data := [record "gpt-4o"; record "o1-preview"] |}) |});
    [reflexivity | discriminate | reflexivity | simpl; lia].
Defined.

Lemma credential_precedence_witness :
  requests (snd (fetchOpenAIModels
                   {| NEXT_PUBLIC_OPENAI_API_KEY := Some "pk-public";
                      OPENAI_API_KEY := Some "sk-test" |}
                   upstream_listing (Some EmptyString) initial_heap))
  = ["Bearer pk-public"].
Proof.
  destruct (credential_precedence
              {| NEXT_PUBLIC_OPENAI_API_KEY := Some "pk-public";
                 OPENAI_API_KEY := Some "sk-test" |}
              upstream_listing (Some EmptyString) initial_heap)
    as [_ [Hpublic _]].
  destruct Hpublic as [key [Hkey Hsent]].
  - intros [s [[= <-] Hne]]. now apply Hne.
  - exists "pk-public". split; [reflexivity | discriminate].
  - injection Hkey as <-. exact Hsent.
Defined.

Lemma expired_snapshot_replaced_witness :
  getCachedOpenAIModels env_with_key upstream_unauthorized 301000 None
    heap_cached_at_1000
  = (inr [], snapshot [] 301000 (sent "Bearer sk-test" heap_cached_at_1000)).
Proof.
  apply (expired_snapshot_replaced env_with_key upstream_unauthorized 301000 None
           "sk-test" heap_cached_at_1000 [toLLMModel (record "gpt-4o")]);
    [reflexivity | simpl; lia | reflexivity | discriminate].
Defined.

Lemma GET_always_succeeds_witness :
  GET env_with_key upstream_unauthorized None "2025-01-01T00:00:00.000Z" initial_heap
  = (inr {| http_status := 200;
            json_body := ModelsJson true [] 0 "2025-01-01T00:00:00.000Z" |},
     sent "Bearer sk-test" initial_heap).
Proof.
  destruct (GET_always_succeeds env_with_key upstream_unauthorized None
              "2025-01-01T00:00:00.000Z" initial_heap)
    as [models [h' [Hf [Hget Hfail]]]].
  destruct (Hfail "sk-test") as [Hm _];
    [reflexivity | discriminate | reflexivity |].
  subst models. rewrite Hget. f_equal.
  vm_compute in Hf. now injection Hf as <-.
Defined.

Lemma POST_rejects_without_request_witness :
  POST env_with_key upstream_listing (Readable (Some EmptyString))
       "2025-01-01T00:00:00.000Z" initial_heap
  = (inr {| http_status := 400;
            json_body := ErrorJson false "API key is required" None |},
     initial_heap).
Proof.
  destruct (POST_rejects_without_request env_with_key upstream_listing
              "2025-01-01T00:00:00.000Z" initial_heap) as [_ H].
  apply H. intros [s [[= <-] Hne]]. now apply Hne.
Defined.

Lemma POST_uses_body_key_witness :
  POST env_with_key upstream_listing (Readable (Some "sk-body"))
       "2025-01-01T00:00:00.000Z" initial_heap
  = (inr {| http_status := 200;
            json_body :=
              ModelsJson true
                [toLLMModel (record "o1-preview"); toLLMModel (record "gpt-4o")]
                2 "2025-01-01T00:00:00.000Z" |},
     sent "Bearer sk-body" initial_heap).
Proof.
  apply (POST_uses_body_key env_with_key upstream_listing "sk-body"
           "2025-01-01T00:00:00.000Z" initial_heap).
  discriminate.
Defined.

Lemma client_only_from_good_config_witness :
  let e := {| window_defined := true;
              NEXT_PUBLIC_SUPABASE_URL := Some "https://project.supabase.co";
              NEXT_PUBLIC_SUPABASE_ANON_KEY := Some "anon";
              NODE_ENV := Some "production" |} in
  let create := fun url key : string => @inr Error (string * string) (url, key) in
  let parses := fun url : string => Js.startsWith url "https://" in
  createSupabaseBrowserClient create parses e None
  = (inr (Some ("https://project.supabase.co", "anon")),
     Some ("https://project.supabase.co", "anon"))
  /\ ~ blank (NEXT_PUBLIC_SUPABASE_URL e).
Proof.
  intros e create parses.
  assert (Hcall : createSupabaseBrowserClient create parses e None
                  = (inr (Some ("https://project.supabase.co", "anon")),
                     Some ("https://project.supabase.co", "anon")))
    by reflexivity.
  split; [exact Hcall|].
  destruct (client_only_from_good_config (string * string) create parses
              e None _ _ Hcall)
    as [Hsame|[client [url [key [_ [_ [_ [_ [Hurl [_ [Hgood _]]]]]]]]]]].
  - discriminate.
  - simpl in Hurl. injection Hurl as <-. exact Hgood.
Defined.

Lemma bad_config_refused_witness :
  let create := fun url key : string => @inr Error (string * string) (url, key) in
  let parses := fun url : string => Js.startsWith url "https://" in
  let no_break_space := utf8 [194; 160]%nat in
  createSupabaseBrowserClient create parses
    {| window_defined := true;
       NEXT_PUBLIC_SUPABASE_URL := Some "not a url";
       NEXT_PUBLIC_SUPABASE_ANON_KEY := Some no_break_space;
       NODE_ENV := Some "production" |} None
  = (inl (new_Error "Supabase URL and Anon Key are required"), None)
  /\ createSupabaseBrowserClient create parses
       {| window_defined := true;
          NEXT_PUBLIC_SUPABASE_URL := Some "not a url";
          NEXT_PUBLIC_SUPABASE_ANON_KEY := Some "anon";
          NODE_ENV := Some "production" |} None
     = (inl (new_Error "Invalid Supabase URL format"), None).
Proof.
  intros create parses no_break_space.
  assert (Hprod : forall e, NODE_ENV e = Some "production" -> ~ in_development e)
    by (unfold in_development; intros e -> H; discriminate).
  assert (Hno : forall s, all_white s = false -> ~ blank (Some s))
    by (intros s Hs Hb; apply all_white_spec in Hb; congruence).
  split.
  - destruct (bad_config_refused (string * string) create parses
                {| window_defined := true;
                   NEXT_PUBLIC_SUPABASE_URL := Some "not a url";
                   NEXT_PUBLIC_SUPABASE_ANON_KEY := Some no_break_space;
                   NODE_ENV := Some "production" |} eq_refl) as [Hblank _].
    destruct Hblank as [_ Hthrows].
    + right. apply all_white_spec. reflexivity.
    + apply Hthrows, Hprod. reflexivity.
  - destruct (bad_config_refused (string * string) create parses
                {| window_defined := true;
                   NEXT_PUBLIC_SUPABASE_URL := Some "not a url";
                   NEXT_PUBLIC_SUPABASE_ANON_KEY := Some "anon";
                   NODE_ENV := Some "production" |} eq_refl) as [_ Hurl].
    destruct (Hurl "not a url") as [_ Hthrows];
      [reflexivity | apply Hno; reflexivity | apply Hno; reflexivity
      | reflexivity |].
    apply Hthrows, Hprod. reflexivity.
Defined.
